(** * Verification of the OpenCV object-detection pipeline

    Shallow embedding of [detection/opencv_detector_python_backup.py]
    (class [OpenCVObjectDetector]) and proofs of the properties the
    specification states about it.

    Conventions of the embedding:
    - Python [int]s and numpy integer pixels are [Z];
    - Python / numpy floats are exact rationals [Q] (every comparison the
      code makes is between finite values; rounding is not modelled);
    - Python [str] is [string], restricted to ASCII for [str.lower];
    - a Python list is a [list]; [set] is stdpp's [gset];
    - code that may raise lives in the monad [M], which carries the
      exception or the value together with a trace of the observable
      events (lines printed on stderr, calls of the detector methods);
    - the functions of [cv2] the code calls are parameters of the
      development (the fields of the record [CV2]), except where a
      property is about their algorithm. *)

From Stdlib Require Import ZArith QArith Qround Lia List Ascii String Bool.
From stdpp Require Import base decidable list gmap strings.
From Equations Require Import Equations.

Set Default Proof Using "Type".
Local Open Scope string_scope.
Local Open Scope list_scope.

(** ** Rational comparisons used for float comparisons *)

Module Float.

Definition gtb (x y : Q) : bool := negb (Qle_bool x y).
Definition ltb (x y : Q) : bool := gtb y x.
Definition of_Z (z : Z) : Q := inject_Z z.
(** Python's [min(a, b)]: [b] when [b < a], else [a]. *)
Definition min (a b : Q) : Q := if ltb b a then b else a.

End Float.

(** ** Exceptions, traces and the monad of the pipeline *)

Inductive Exception : Type :=
  | ValueError (msg : string)
  | ZeroDivisionError (msg : string)
  | IndexError (msg : string)
  | OSError (msg : string)
  | AttributeError (msg : string)
  | TypeError (msg : string)
  | cv2_error (msg : string).

(** [str(e)] *)
Definition str (e : Exception) : string :=
  match e with
  | ValueError m | ZeroDivisionError m | IndexError m
  | OSError m | AttributeError m | TypeError m | cv2_error m => m
  end.

Inductive Event : Type :=
  | Stderr (line : string)      (* print(..., file=sys.stderr) *)
  | Call (method : string)      (* a method of the detector is entered *)
  | Stdout (line : string)      (* print(...) *)
  | CreateFile (path : string)  (* open(path, 'wb') created or emptied the file *)
  | WriteFile (path : string) (data : list Byte.byte).  (* f.write(data), closed *)

Inductive Outcome (A : Type) : Type :=
  | Return (a : A)
  | Raise (e : Exception).
Arguments Return {A} a.
Arguments Raise {A} e.

Definition M (A : Type) : Type := (list Event * Outcome A)%type.

Definition ret {A} (a : A) : M A := ([], Return a).
Definition raise {A} (e : Exception) : M A := ([], Raise e).
Definition emit (ev : Event) : M unit := ([ev], Return tt).
Definition lift {A} (o : Outcome A) : M A := ([], o).

Definition bind {A B} (m : M A) (k : A -> M B) : M B :=
  match m with
  | (t, Return a) => let '(t', r) := k a in (t ++ t', r)
  | (t, Raise e) => (t, Raise e)
  end.

(** [try: body except Exception as e: handler e] *)
Definition try_except {A} (body : M A) (handler : Exception -> M A) : M A :=
  match body with
  | (t, Return a) => (t, Return a)
  | (t, Raise e) => let '(t', r) := handler e in (t ++ t', r)
  end.

Declare Scope py_scope.
Delimit Scope py_scope with py.
Notation "x <- m ;; k" := (bind m (fun x => k))
  (at level 100, m at next level, right associativity) : py_scope.
Notation "m ;;; k" := (bind m (fun _ => k))
  (at level 100, right associativity) : py_scope.
Local Open Scope py_scope.

Definition trace {A} (m : M A) : list Event := fst m.
Definition outcome {A} (m : M A) : Outcome A := snd m.

(** ** Strings *)

Definition ascii_lower (c : ascii) : ascii :=
  let n := nat_of_ascii c in
  if (65 <=? n)%nat && (n <=? 90)%nat then ascii_of_nat (n + 32) else c.

(** [str.lower] on ASCII text. *)
Fixpoint lower (s : string) : string :=
  match s with
  | EmptyString => EmptyString
  | String c s' => String (ascii_lower c) (lower s')
  end.

(** [x in l] for a list of strings. *)
Definition str_in (x : string) (l : list string) : bool :=
  existsb (String.eqb x) l.



(** ** Data model *)

(** A detection: the dict with keys "class", "confidence", "category",
    "bbox". *)
Record Detection : Type := mkDetection {
  class : string;
  confidence : Q;
  category : string;
  bbox : list Z
}.

(** ** [_categorize_object] *)

Definition animals : list string :=
  ["bird"; "cat"; "dog"; "horse"; "sheep"; "cow"; "elephant"; "bear";
   "zebra"; "giraffe"].
Definition vehicles : list string :=
  ["car"; "motorcycle"; "bus"; "truck"; "bicycle"; "airplane"; "boat"].
Definition humans : list string := ["person"].
Definition machinery : list string := ["truck"; "bus"; "train"].

Definition _categorize_object (class_name : string) : string :=
  let class_name_lower := lower class_name in
  if str_in class_name_lower humans then "human"
  else if str_in class_name_lower animals then "animal"
  else if str_in class_name_lower machinery then "machinery"
  else if str_in class_name_lower vehicles then "vehicle"
  else class_name_lower.

(** ** Python indexing and slicing *)

(** [l[i]] with Python's negative indices; [IndexError] out of range. *)
Definition py_index {A} (l : list A) (i : Z) : Outcome A :=
  let n := Z.of_nat (length l) in
  let j := if (i <? 0)%Z then (i + n)%Z else i in
  if (j <? 0)%Z then Raise (IndexError "list index out of range")
  else match nth_error l (Z.to_nat j) with
       | Some a => Return a
       | None => Raise (IndexError "list index out of range")
       end.

(** Position a slice bound is clamped to, as in [l[start:stop]]. *)
Definition py_bound (len : nat) (i : Z) : nat :=
  let n := Z.of_nat len in
  Z.to_nat (if (i <? 0)%Z then Z.max (i + n) 0 else Z.min i n).

(** [l[start:stop]] *)
Definition py_slice {A} (l : list A) (start stop : Z) : list A :=
  let a := py_bound (length l) start in
  let b := py_bound (length l) stop in
  firstn (b - a) (skipn a l).

(** [int(q)] on a float: truncation towards zero. *)
Definition py_int (q : Q) : Z :=
  if Float.ltb q 0 then Qceiling q else Qfloor q.

(** ** Images *)

(** A BGR pixel, a colour image as rows of pixels, a single-channel image
    as rows of values, and an HSV image. *)
Definition Pixel : Type := (Z * Z * Z)%type.
Definition Image : Type := list (list Pixel).
Definition Gray : Type := list (list Z).
Definition HSVImage : Type := list (list (Z * Z * Z)).

(** [x, y, w, h] *)
Definition Rect : Type := (Z * Z * Z * Z)%type.
Definition rect_list (r : Rect) : list Z :=
  let '(x, y, w, h) := r in [x; y; w; h].

Definition Contour : Type := list (Z * Z).

(** [image.shape[:2]]: rows, then columns. *)
Definition shape2 {A} (img : list (list A)) : Z * Z :=
  (Z.of_nat (length img), Z.of_nat (length (hd [] img))).

(** Number of pixels of an image ([a.size] of a single-channel array). *)
Definition pixel_count {A} (img : list (list A)) : nat :=
  length (concat img).

(** [img[y:y+h, x:x+w]] *)
Definition crop {A} (img : list (list A)) (x y w h : Z) : list (list A) :=
  map (fun row => py_slice row x (x + w)%Z) (py_slice img y (y + h)%Z).

(** The loaded network: the Darknet configuration and weights it was read
    from. *)
Inductive Net : Type := DarknetNet (config_path weights_path : string).

(** The functions of [cv2] the detector relies on. Functions that can fail
    return an [Outcome]. [bgr2gray] and [bgr2hsv] are the per-pixel colour
    conversions of [cv2.cvtColor]. *)
Record CV2 : Type := {
  imread : string -> option Image;
  bgr2gray : Pixel -> Z;
  bgr2hsv : Pixel -> Z * Z * Z;
  readNetFromDarknet : string -> string -> Outcome Net;
  getLayerNames : Net -> list string;
  getUnconnectedOutLayers : Net -> list (list Z);
  (* blobFromImage, setInput and forward *)
  forward : Net -> list string -> Image -> Outcome (list (list (list Q)));
  detectMultiScale : Gray -> Outcome (list Rect * list (list Q));
  Canny : Gray -> Z -> Z -> Outcome Gray;
  findContours : Gray -> Outcome (list Contour);
  contourArea : Contour -> Q;
  boundingRect : Contour -> Rect;
  HoughLinesP : Gray -> Outcome (option (list (Z * Z * Z * Z)))
}.

(** [cv2.cvtColor] fails on an empty image and converts pixel by pixel
    otherwise. *)
Definition cvtColor {A B} (f : A -> B) (img : list (list A))
  : Outcome (list (list B)) :=
  match pixel_count img with
  | O => Raise (cv2_error "(-215:Assertion failed) !_src.empty() in function 'cvtColor'")
  | S _ => Return (map (map f) img)
  end.

(** The 8-bit fixed-point BGR to gray conversion of OpenCV, an instance
    of [bgr2gray]. *)
Definition cv_bgr2gray (p : Pixel) : Z :=
  let '(b, g, r) := p in
  Z.shiftr (1868 * b + 9617 * g + 4899 * r + 8192) 14.

(** ** [_analyze_day_night] *)

Fixpoint sumZ (l : list Z) : Z :=
  match l with
  | [] => 0%Z
  | v :: l' => (v + sumZ l')%Z
  end.

Fixpoint sumQ (l : list Q) : Q :=
  match l with
  | [] => 0%Q
  | v :: l' => (v + sumQ l')%Q
  end.

(** [np.mean] *)
Definition np_mean (a : Gray) : Q :=
  (inject_Z (sumZ (concat a)) / inject_Z (Z.of_nat (pixel_count a)))%Q.

(** [cv2.calcHist([gray], [0], None, [256], [0, 256])]: bin [b] counts the
    pixels of value [b]. *)
Definition calcHist (gray : Gray) : list Q :=
  map (fun b : nat =>
         inject_Z (Z.of_nat (length (List.filter (Z.eqb (Z.of_nat b)) (concat gray)))))
      (seq 0 256).

(** The decision of [_analyze_day_night] once the image is gray. *)
Definition is_day_of_gray (gray : Gray) : bool :=
  let avg_brightness := np_mean gray in
  let hist := calcHist gray in
  let bright_pixels := sumQ (skipn 128 hist) in
  let dark_pixels := sumQ (firstn 128 hist) in
  Float.gtb avg_brightness 80
  || (Float.gtb avg_brightness 50
      && Float.gtb bright_pixels (dark_pixels * (3 # 2))).

Definition _analyze_day_night (cv : CV2) (image : Image) : M bool :=
  gray <- lift (cvtColor (bgr2gray cv) image) ;;
  ret (is_day_of_gray gray).

(** ** Non-maximum suppression ([cv2.dnn.NMSBoxes]) *)

Definition rect_area (r : Rect) : Z :=
  let '(_, _, w, h) := r in (w * h)%Z.

(** Intersection of two rectangles; the empty rectangle when they do not
    overlap. *)
Definition rect_inter (a b : Rect) : Rect :=
  let '(ax, ay, aw, ah) := a in
  let '(bx, by_, bw, bh) := b in
  let x1 := Z.max ax bx in
  let y1 := Z.max ay by_ in
  let w := (Z.min (ax + aw) (bx + bw) - x1)%Z in
  let h := (Z.min (ay + ah) (by_ + bh) - y1)%Z in
  if (w <=? 0)%Z || (h <=? 0)%Z then (0, 0, 0, 0)%Z else (x1, y1, w, h).

(** Intersection over union: the ratio of the overlapping area to the
    combined area of the two boxes. Two boxes without area overlap
    entirely (OpenCV's convention). *)
Definition iou (a b : Rect) : Q :=
  let Aa := rect_area a in
  let Ab := rect_area b in
  if (Aa + Ab <=? 0)%Z then 1%Q
  else
    let Aab := rect_area (rect_inter a b) in
    (inject_Z Aab / inject_Z (Aa + Ab - Aab))%Q.

Section Suppression.
Context {A : Type} (score : A -> Q) (box : A -> Rect).
Variable (overlap : Rect -> Rect -> Q).
Variables (score_threshold nms_threshold : Q).

(** Stable insertion in a list sorted by descending score: [a], which
    comes first in the original order, goes before the candidates of
    equal score. *)
Fixpoint insert_desc (a : A) (l : list A) : list A :=
  match l with
  | [] => [a]
  | b :: l' =>
      if Float.gtb (score b) (score a) then b :: insert_desc a l'
      else a :: l
  end.

Definition sort_desc (l : list A) : list A := fold_right insert_desc [] l.

(** [c] survives the acceptance of [b]: its overlap with [b] does not
    exceed the threshold. *)
Definition survives (b c : A) : bool :=
  negb (Float.gtb (overlap (box c) (box b)) nms_threshold).

(** Accept the first (highest-confidence) remaining candidate, discard
    the remaining candidates that overlap it too much, repeat. *)
Equations? greedy (l : list A) : list A by wf (length l) lt :=
  greedy [] := [];
  greedy (b :: rest) := b :: greedy (List.filter (survives b) rest).
Proof.
  clear greedy. induction rest as [|c rest IH]; simpl; [lia|].
  destruct (survives b c); simpl; lia.
Defined.

Definition suppress (l : list A) : list A :=
  greedy (sort_desc
            (List.filter (fun c => Float.gtb (score c) score_threshold) l)).

(** No candidate of the list is discarded by an earlier one. *)
Fixpoint compatible (l : list A) : Prop :=
  match l with
  | [] => True
  | b :: rest => Forall (fun c => survives b c = true) rest /\ compatible rest
  end.

(** No candidate of the list has a higher score than an earlier one. *)
Fixpoint descending (l : list A) : Prop :=
  match l with
  | [] => True
  | b :: rest =>
      Forall (fun c => Float.gtb (score c) (score b) = false) rest
      /\ descending rest
  end.

(** What suppression leaves: confident candidates, by descending score,
    none discarded by another. *)
Definition settled (l : list A) : Prop :=
  Forall (fun c => Float.gtb (score c) score_threshold = true) l
  /\ descending l /\ compatible l.
End Suppression.

(** [list(enumerate(l))] *)
Definition enumerate {A} (l : list A) : list (nat * A) :=
  combine (seq 0 (length l)) l.

(** Modelled from the spec: [cv2.dnn.NMSBoxes] is a function of OpenCV, of
    which the repository holds only the call. Candidates whose score
    exceeds the score threshold are sorted by confidence, descending and
    stable; the highest-confidence remaining box is accepted and the
    unaccepted boxes whose intersection over union with it exceeds the
    overlap threshold are discarded, repeatedly. The result lists the
    indices of the accepted boxes. *)
Definition NMSBoxes (bboxes : list Rect) (scores : list Q)
    (score_threshold nms_threshold : Q) : list nat :=
  map fst
    (suppress (fun c => snd (snd c)) (fun c => fst (snd c)) iou
       score_threshold nms_threshold
       (enumerate (combine bboxes scores))).

(** ** The detector object *)

Record Detector : Type := mkDetector {
  net : option Net;
  classes : list string;
  output_layers : list string;
  confidence_threshold : Q;
  nms_threshold : Q
}.

(** ** [_detect_with_yolo] *)

Definition obind {A B} (o : Outcome A) (k : A -> Outcome B) : Outcome B :=
  match o with
  | Return a => k a
  | Raise e => Raise e
  end.

(** Monadic [for x in l: acc = step x acc]. *)
Fixpoint for_each {X S} (step : X -> S -> Outcome S) (l : list X) (acc : S)
  : Outcome S :=
  match l with
  | [] => Return acc
  | x :: l' => obind (step x acc) (for_each step l')
  end.

Fixpoint argmax_from (best_i : nat) (best : Q) (i : nat) (l : list Q) : nat :=
  match l with
  | [] => best_i
  | v :: l' =>
      if Float.gtb v best then argmax_from i v (S i) l'
      else argmax_from best_i best (S i) l'
  end.

(** [np.argmax]: the first index of the maximum. *)
Definition np_argmax (l : list Q) : Outcome nat :=
  match l with
  | [] => Raise (ValueError "attempt to get argmax of an empty sequence")
  | v :: l' => Return (argmax_from 0 v 1 l')
  end.

(** The three parallel lists [boxes], [confidences], [class_ids]. *)
Definition Candidates : Type := (list Rect * list Q * list nat)%type.

(** Body of the loop over the rows of the network outputs. *)
Definition parse_detection (d : Detector) (width height : Z)
    (detection : list Q) (acc : Candidates) : Outcome Candidates :=
  let '(boxes, confidences, class_ids) := acc in
  let scores := skipn 5 detection in
  obind (np_argmax scores) (fun class_id =>
  let confidence := nth class_id scores 0%Q in
  if Float.gtb confidence (confidence_threshold d) then
    let center_x := py_int (nth 0 detection 0 * inject_Z width)%Q in
    let center_y := py_int (nth 1 detection 0 * inject_Z height)%Q in
    let w := py_int (nth 2 detection 0 * inject_Z width)%Q in
    let h := py_int (nth 3 detection 0 * inject_Z height)%Q in
    let x := py_int (inject_Z center_x - inject_Z w / 2)%Q in
    let y := py_int (inject_Z center_y - inject_Z h / 2)%Q in
    Return (boxes ++ [(x, y, w, h)], confidences ++ [confidence],
            class_ids ++ [class_id])
  else Return acc).

Definition parse_outputs (d : Detector) (width height : Z)
    (outputs : list (list (list Q))) : Outcome Candidates :=
  for_each (fun output acc =>
              for_each (parse_detection d width height) output acc)
           outputs ([], [], []).

(** The detection built for the kept index [i]. *)
Definition yolo_detection (d : Detector) (c : Candidates) (i : nat) : Detection :=
  let '(boxes, confidences, class_ids) := c in
  let class_id := nth i class_ids 0%nat in
  let class_name :=
    if (class_id <? length (classes d))%nat
    then nth class_id (classes d) "" else "unknown" in
  {| class := class_name;
     confidence := nth i confidences 0%Q;
     category := _categorize_object class_name;
     bbox := rect_list (nth i boxes (0, 0, 0, 0)%Z) |}.

Definition _detect_with_yolo (cv : CV2) (d : Detector) (image : Image)
  : M (list Detection) :=
  emit (Call "_detect_with_yolo") ;;;
  match net d with
  | None => ret []
  | Some n =>
      let '(height, width) := shape2 image in
      outputs <- lift (forward cv n (output_layers d) image) ;;
      c <- lift (parse_outputs d width height outputs) ;;
      let '(boxes, confidences, _) := c in
      let indices :=
        NMSBoxes boxes confidences (confidence_threshold d) (nms_threshold d) in
      ret (map (yolo_detection d c) indices)
  end.

(** ** The heuristic detectors *)

(** A loop that appends to [detections] inside a [try] block: when an
    iteration raises, the detections appended so far are kept and the
    exception is handed to the handler. *)
Fixpoint loop_append {X} (step : X -> Outcome (option Detection))
    (l : list X) (detections : list Detection)
  : list Detection * option Exception :=
  match l with
  | [] => (detections, None)
  | x :: l' =>
      match step x with
      | Raise e => (detections, Some e)
      | Return None => loop_append step l' detections
      | Return (Some det) => loop_append step l' (detections ++ [det])
      end
  end.

(** [except Exception as e: print(f"{label}: {e}", file=sys.stderr)]
    followed by [return detections]. *)
Definition guarded (label : string) (r : list Detection * option Exception)
  : M (list Detection) :=
  match r with
  | (detections, None) => ret detections
  | (detections, Some e) =>
      emit (Stderr (label ++ ": " ++ str e)) ;;; ret detections
  end.

(** [a / b] on Python ints. *)
Definition py_truediv (a b : Z) : Outcome Q :=
  if (b =? 0)%Z then Raise (ZeroDivisionError "division by zero")
  else Return (inject_Z a / inject_Z b)%Q.

(** *** Humans (HOG) *)

Definition hog_step (weights : list (list Q)) (ir : nat * Rect)
  : Outcome (option Detection) :=
  let '(i, r) := ir in
  obind (if (i <? length weights)%nat
         then obind (py_index weights (Z.of_nat i)) (fun row => py_index row 0)
         else Return (6 # 10)%Q)
        (fun confidence =>
  if Float.gtb confidence (3 # 10) then
    Return (Some {| class := "person";
                    confidence := Float.min confidence 1;
                    category := "human";
                    bbox := rect_list r |})
  else Return None).

Definition _detect_humans_hog (cv : CV2) (image : Image) (gray : Gray)
  : M (list Detection) :=
  emit (Call "_detect_humans_hog") ;;;
  guarded "HOG detection error"
    match detectMultiScale cv gray with
    | Raise e => ([], Some e)
    | Return (rects, weights) =>
        loop_append (hog_step weights) (enumerate rects) []
    end.

(** *** Vehicles (contours) *)

(** Number of entries of a single-channel image above a level:
    [np.sum(a > level)]. *)
Definition count_above (level : Z) (a : Gray) : nat :=
  length (List.filter (fun v => (level <? v)%Z) (concat a)).

Definition saturation_channel (hsv : HSVImage) : Gray :=
  map (map (fun p : Z * Z * Z => snd (fst p))) hsv.

Definition _has_artificial_colors (cv : CV2) (roi : Image) : Outcome bool :=
  if (pixel_count roi * 3 =? 0)%nat then Return false
  else
    obind (cvtColor (bgr2hsv cv) roi) (fun hsv_roi =>
    let saturation := saturation_channel hsv_roi in
    let high_sat_ratio :=
      (inject_Z (Z.of_nat (count_above 100 saturation))
       / inject_Z (Z.of_nat (pixel_count saturation)))%Q in
    Return (Float.gtb high_sat_ratio (3 # 10))).

Definition vehicle_detection (area : Q) (r : Rect) : Detection :=
  {| class := "vehicle";
     confidence := Float.min (7 # 10) (area / 50000);
     category := "vehicle";
     bbox := rect_list r |}.

Definition vehicle_step (cv : CV2) (image : Image) (contour : Contour)
  : Outcome (option Detection) :=
  let area := contourArea cv contour in
  if Float.gtb area 5000 then
    let '(x, y, w, h) := boundingRect cv contour in
    obind (py_truediv w h) (fun aspect_ratio =>
    if Float.ltb (12 # 10) aspect_ratio && Float.ltb aspect_ratio 4
       && (100 <? w)%Z && (50 <? h)%Z then
      let roi := crop image x y w h in
      obind (_has_artificial_colors cv roi) (fun artificial =>
      if artificial then Return (Some (vehicle_detection area (x, y, w, h)))
      else Return None)
    else Return None)
  else Return None.

Definition _detect_vehicles_contours (cv : CV2) (image : Image) (gray : Gray)
  : M (list Detection) :=
  emit (Call "_detect_vehicles_contours") ;;;
  guarded "Vehicle contour detection error"
    match obind (Canny cv gray 50 150) (findContours cv) with
    | Raise e => ([], Some e)
    | Return contours => loop_append (vehicle_step cv image) contours []
    end.

(** *** Animals (texture) *)

(** [cv2.inRange]: 255 where every channel lies within its bounds. *)
Definition inRange (hsv : HSVImage) (lo hi : Z * Z * Z) : Gray :=
  let within (v l u : Z) := (l <=? v)%Z && (v <=? u)%Z in
  map (map (fun p : Z * Z * Z =>
              let '(h, s, v) := p in
              let '(lh, ls, lv) := lo in
              let '(uh, us, uv) := hi in
              if within h lh uh && within s ls us && within v lv uv
              then 255%Z else 0%Z)) hsv.

(** [np.var]: the mean of the squared deviations from the mean. *)
Definition np_var (a : Gray) : Q :=
  let m := np_mean a in
  (sumQ (map (fun v => (inject_Z v - m) * (inject_Z v - m))%Q (concat a))
   / inject_Z (Z.of_nat (pixel_count a)))%Q.

Definition animal_detection (area texture_var : Q) (r : Rect) : Detection :=
  {| class := "animal";
     confidence := Float.min (6 # 10) (texture_var / 1000 + area / 100000);
     category := "animal";
     bbox := rect_list r |}.

Definition animal_step (cv : CV2) (gray : Gray) (contour : Contour)
  : Outcome (option Detection) :=
  let area := contourArea cv contour in
  if Float.ltb 2000 area && Float.ltb area 50000 then
    let '(x, y, w, h) := boundingRect cv contour in
    obind (py_truediv w h) (fun aspect_ratio =>
    if Float.ltb (5 # 10) aspect_ratio && Float.ltb aspect_ratio 3 then
      let roi_gray := crop gray x y w h in
      let texture_var := np_var roi_gray in
      if Float.gtb texture_var 100
      then Return (Some (animal_detection area texture_var (x, y, w, h)))
      else Return None
    else Return None)
  else Return None.

Definition _detect_animals_texture (cv : CV2) (image : Image) (gray : Gray)
    (hsv : HSVImage) : M (list Detection) :=
  emit (Call "_detect_animals_texture") ;;;
  guarded "Animal texture detection error"
    (let lower_brown := (5, 50, 50)%Z in
     let upper_brown := (25, 255, 200)%Z in
     let brown_mask := inRange hsv lower_brown upper_brown in
     match findContours cv brown_mask with
     | Raise e => ([], Some e)
     | Return contours => loop_append (animal_step cv gray) contours []
     end).

(** *** Machinery (edges) *)

(** [min(l)] and [max(l)] of a non-empty list. *)
Definition list_min (x : Z) (l : list Z) : Z := fold_left Z.min l x.
Definition list_max (x : Z) (l : list Z) : Z := fold_left Z.max l x.

(** The endpoints of the segments, in order: [all_points]. *)
Definition segment_points (lines : list (Z * Z * Z * Z)) : list (Z * Z) :=
  flat_map (fun l => let '(x1, y1, x2, y2) := l in [(x1, y1); (x2, y2)]) lines.

(** What the [try] block of [_detect_machinery_edges] appends once the
    line segments are known. *)
Definition machinery_of_lines (lines : option (list (Z * Z * Z * Z)))
  : list Detection :=
  match lines with
  | None => []
  | Some lines =>
      if (20 <? length lines)%nat then
        let line_regions :=
          map (fun l => let '(x1, y1, x2, y2) := l in [(x1, y1); (x2, y2)])
              lines in
        if (10 <? length line_regions)%nat then
          let all_points := concat line_regions in
          match map fst all_points, map snd all_points with
          | x0 :: xs, y0 :: ys =>
              let x_min := list_min x0 xs in
              let x_max := list_max x0 xs in
              let y_min := list_min y0 ys in
              let y_max := list_max y0 ys in
              let w := (x_max - x_min)%Z in
              let h := (y_max - y_min)%Z in
              if (100 <? w)%Z && (100 <? h)%Z then
                [ {| class := "machinery";
                     confidence :=
                       Float.min (7 # 10)
                         (inject_Z (Z.of_nat (length lines)) / 100);
                     category := "machinery";
                     bbox := [x_min; y_min; w; h] |} ]
              else []
          | _, _ => []
          end
        else []
      else []
  end.

Definition _detect_machinery_edges (cv : CV2) (image : Image) (gray : Gray)
  : M (list Detection) :=
  emit (Call "_detect_machinery_edges") ;;;
  guarded "Machinery edge detection error"
    match obind (Canny cv gray 100 200) (HoughLinesP cv) with
    | Raise e => ([], Some e)
    | Return lines => (machinery_of_lines lines, None)
    end.

(** *** [_detect_with_opencv_features] *)

Definition _detect_with_opencv_features (cv : CV2) (image : Image)
  : M (list Detection) :=
  emit (Call "_detect_with_opencv_features") ;;;
  gray <- lift (cvtColor (bgr2gray cv) image) ;;
  hsv <- lift (cvtColor (bgr2hsv cv) image) ;;
  humans_ <- _detect_humans_hog cv image gray ;;
  vehicles_ <- _detect_vehicles_contours cv image gray ;;
  animals_ <- _detect_animals_texture cv image gray hsv ;;
  machinery_ <- _detect_machinery_edges cv image gray ;;
  ret (humans_ ++ vehicles_ ++ animals_ ++ machinery_).

(** ** [analyze_image] *)

(** The dict returned by [analyze_image]. *)
Record AnalysisResult : Type := mkResult {
  isDay : bool;
  objects : list string;
  details : list Detection;
  summary : string;
  photoPath : string
}.

(** [sep.join(l)] *)
Fixpoint join (sep : string) (l : list string) : string :=
  match l with
  | [] => ""
  | [s] => s
  | s :: l' => (s ++ sep ++ join sep l')%string
  end.

(** [any(d["category"] == det["category"] for d in detections)] *)
Definition category_present (detections : list Detection) (det : Detection)
  : bool :=
  existsb (fun d => String.eqb (category d) (category det)) detections.

(** The merge loop: a heuristic detection is appended unless its category
    is already among the detections gathered so far. *)
Definition merge_step (detections : list Detection) (det : Detection)
  : list Detection :=
  if negb (category_present detections det) then detections ++ [det]
  else detections.

Definition merge_detections (detections opencv_detections : list Detection)
  : list Detection :=
  fold_left merge_step opencv_detections detections.

(** [list(set(det["category"] for det in detections))]: the order of the
    result is the iteration order of the set. *)
Definition category_list (detections : list Detection) : list string :=
  elements (list_to_set (map category detections) : gset string).

Definition degraded_result (image_path : string) (e : Exception)
  : AnalysisResult :=
  {| isDay := true;
     objects := ["general scene"];
     details := [];
     summary := ("Error analyzing image: " ++ str e)%string;
     photoPath := image_path |}.

(** The body of the [try] block. *)
Definition analyze_image_body (cv : CV2) (self : Detector)
    (image_path : string) : M AnalysisResult :=
  image <- match imread cv image_path with
           | None => raise (ValueError ("Could not load image: " ++ image_path))
           | Some image => ret image
           end ;;
  is_day <- _analyze_day_night cv image ;;
  detections <- match net self with
                | Some _ => _detect_with_yolo cv self image
                | None => ret []
                end ;;
  detections <- (if (length detections <? 2)%nat then
                   opencv_detections <- _detect_with_opencv_features cv image ;;
                   ret (merge_detections detections opencv_detections)
                 else ret detections) ;;
  let categories := category_list detections in
  let categories :=
    match categories with
    | [] => ["general scene"]
    | _ :: _ => categories
    end in
  let time_of_day := if is_day then "day" else "night" in
  let objects_text := join ", " categories in
  let summary_ :=
    ("It's " ++ time_of_day ++ " time. The photo includes: " ++ objects_text)%string in
  ret {| isDay := is_day;
         objects := categories;
         details := detections;
         summary := summary_;
         photoPath := image_path |}.

Definition analyze_image (cv : CV2) (self : Detector) (image_path : string)
  : M AnalysisResult :=
  try_except (analyze_image_body cv self image_path)
    (fun e =>
       emit (Stderr ("Error analyzing image: " ++ str e)) ;;;
       ret (degraded_result image_path e)).

(** ** [_initialize_detector] *)

(** What the detector sees of the file system: [os.path.exists] and the
    lines of a text file ([open(path).readlines()]). *)
Record FileSystem : Type := {
  path_exists : string -> bool;
  readlines : string -> Outcome (list string)
}.

Definition is_space (c : ascii) : bool :=
  let n := nat_of_ascii c in
  ((9 <=? n)%nat && (n <=? 13)%nat) || (n =? 32)%nat
  || ((28 <=? n)%nat && (n <=? 31)%nat).

Fixpoint lstrip (s : string) : string :=
  match s with
  | EmptyString => EmptyString
  | String c s' => if is_space c then lstrip s' else s
  end.

Fixpoint rstrip (s : string) : string :=
  match s with
  | EmptyString => EmptyString
  | String c s' =>
      match rstrip s' with
      | EmptyString => if is_space c then EmptyString else String c EmptyString
      | r => String c r
      end
  end.

(** [str.strip] *)
Definition strip (s : string) : string := rstrip (lstrip s).

Definition coco_classes : list string :=
  ["person"; "bicycle"; "car"; "motorcycle"; "airplane"; "bus"; "train"; "truck";
   "boat"; "traffic light"; "fire hydrant"; "stop sign"; "parking meter"; "bench";
   "bird"; "cat"; "dog"; "horse"; "sheep"; "cow"; "elephant"; "bear"; "zebra"; "giraffe";
   "backpack"; "umbrella"; "handbag"; "tie"; "suitcase"; "frisbee"; "skis"; "snowboard";
   "sports ball"; "kite"; "baseball bat"; "baseball glove"; "skateboard"; "surfboard";
   "tennis racket"; "bottle"; "wine glass"; "cup"; "fork"; "knife"; "spoon"; "bowl";
   "banana"; "apple"; "sandwich"; "orange"; "broccoli"; "carrot"; "hot dog"; "pizza";
   "donut"; "cake"; "chair"; "couch"; "potted plant"; "bed"; "dining table"; "toilet";
   "tv"; "laptop"; "mouse"; "remote"; "keyboard"; "cell phone"; "microwave"; "oven";
   "toaster"; "sink"; "refrigerator"; "book"; "clock"; "vase"; "scissors"; "teddy bear";
   "hair drier"; "toothbrush"].

(** Statements that assign attributes of [self] and may raise: the
    attributes assigned before an exception keep their new value. *)
Definition Init (A : Type) : Type := Detector -> Detector * Outcome A.

Definition iret {A} (a : A) : Init A := fun self => (self, Return a).
Definition ibind {A B} (m : Init A) (k : A -> Init B) : Init B :=
  fun self =>
    match m self with
    | (self', Return a) => k a self'
    | (self', Raise e) => (self', Raise e)
    end.
Definition ilift {A} (o : Outcome A) : Init A := fun self => (self, o).
Definition set_net (n : option Net) : Init unit :=
  fun self => (mkDetector n (classes self) (output_layers self)
                 (confidence_threshold self) (nms_threshold self), Return tt).
Definition set_output_layers (l : list string) : Init unit :=
  fun self => (mkDetector (net self) (classes self) l
                 (confidence_threshold self) (nms_threshold self), Return tt).
Definition set_classes (l : list string) : Init unit :=
  fun self => (mkDetector (net self) l (output_layers self)
                 (confidence_threshold self) (nms_threshold self), Return tt).

Declare Scope init_scope.
Delimit Scope init_scope with init.
Notation "x <- m ;; k" := (ibind m (fun x => k))
  (at level 100, m at next level, right associativity) : init_scope.
Notation "m ;;; k" := (ibind m (fun _ => k))
  (at level 100, right associativity) : init_scope.

(** [[f(x) for x in l]] where [f] may raise. *)
Fixpoint map_outcome {X Y} (f : X -> Outcome Y) (l : list X)
  : Outcome (list Y) :=
  match l with
  | [] => Return []
  | x :: l' =>
      obind (f x) (fun y => obind (map_outcome f l') (fun ys => Return (y :: ys)))
  end.

Definition primary_weights : string := "/opt/yolo/yolov3.weights".
Definition primary_config : string := "/opt/yolo/yolov3.cfg".
Definition tiny_weights : string := "/opt/yolo/yolov3-tiny.weights".
Definition tiny_config : string := "/opt/yolo/yolov3-tiny.cfg".
Definition classes_file : string := "/opt/yolo/coco.names".

(** The weight/config pair the loader settles on. *)
Definition model_paths (fs : FileSystem) : string * string :=
  let weights_path := primary_weights in
  let config_path := primary_config in
  if negb (path_exists fs weights_path) then (tiny_weights, tiny_config)
  else (weights_path, config_path).

(** The body of the [try] block of [_initialize_detector]. The random
    [colors] it draws last are used nowhere and are left out. *)
Definition initialize_body (cv : CV2) (fs : FileSystem) : Init unit :=
  (let classes_path := classes_file in
   let '(weights_path, config_path) := model_paths fs in
   (if path_exists fs weights_path && path_exists fs config_path then
      n <- ilift (readNetFromDarknet cv config_path weights_path) ;;
      set_net (Some n) ;;;
      let layer_names := getLayerNames cv n in
      layers <- ilift (map_outcome
                         (fun i => obind (py_index i 0) (fun i0 =>
                                   py_index layer_names (i0 - 1)%Z))
                         (getUnconnectedOutLayers cv n)) ;;
      set_output_layers layers
    else iret tt) ;;;
   (if path_exists fs classes_path then
      lines <- ilift (readlines fs classes_path) ;;
      set_classes (map strip lines)
    else set_classes coco_classes))%init.

Definition _initialize_detector (cv : CV2) (fs : FileSystem) (self : Detector)
  : M Detector :=
  match initialize_body cv fs self with
  | (self', Return _) => ret self'
  | (self', Raise e) =>
      emit (Stderr ("Warning: Could not initialize YOLO detector: " ++ str e)) ;;;
      ret (mkDetector None (classes self') (output_layers self')
             (confidence_threshold self') (nms_threshold self'))
  end.

(** [OpenCVObjectDetector()] *)
Definition new_detector (cv : CV2) (fs : FileSystem) : M Detector :=
  _initialize_detector cv fs
    {| net := None; classes := []; output_layers := [];
       confidence_threshold := 5 # 10; nms_threshold := 4 # 10 |}.

(** ** [main] of the detector script *)






(** ** [WebhookHandler.save_image] of the webhook receiver *)

(** [s.replace(old, new)] for one-character [old] and [new]. *)
Fixpoint replace_char (old new : ascii) (s : string) : string :=
  match s with
  | EmptyString => EmptyString
  | String c s' =>
      String (if Ascii.eqb c old then new else c) (replace_char old new s')
  end.

(** The file name of a saved image. *)
Definition image_filename (object_type timestamp : string) : string :=
  let safe_timestamp :=
    replace_char " " "_" (replace_char ":" "-" timestamp) in
  (safe_timestamp ++ "_" ++ object_type ++ ".jpg")%string.

(** The values [json.loads] produces, which is what [do_POST] hands to
    [save_image]. *)
Local Set Warnings "-register-all".






(** ** Specification-level definitions *)

(** Number of values of [l] equal to [b], and number of values in
    [lo, hi). *)
Definition count_eq (b : nat) (l : list Z) : Z :=
  Z.of_nat (length (List.filter (Z.eqb (Z.of_nat b)) l)).

Definition count_range (lo hi : Z) (l : list Z) : Z :=
  Z.of_nat (length (List.filter (fun v => (lo <=? v)%Z && (v <? hi)%Z) l)).

(** The day/night rule in the words of the specification; the bins
    [lo, hi) of the histogram sum to the number of pixels whose brightness
    lies in that range. *)
Definition bins_sum (lo hi : Z) (gray : Gray) : Z :=
  count_range lo hi (concat gray).

Definition spec_is_day (gray : Gray) : Prop :=
  let mean_brightness := np_mean gray in
  (80 < mean_brightness)%Q
  \/ ((50 < mean_brightness)%Q
      /\ ((3 # 2) * inject_Z (bins_sum 0 128 gray)
          < inject_Z (bins_sum 128 256 gray))%Q).

(** An image all of whose pixels have the value [v] in every channel. *)
Definition uniform (v : Z) (image : Image) : Prop :=
  Forall (Forall (fun p => p = (v, v, v))) image.

(** The first-seen rule in the words of the specification: a heuristic
    detection is kept when no earlier detection, primary or heuristic, has
    its category. *)
Fixpoint first_seen (earlier heuristic : list Detection) : list Detection :=
  match heuristic with
  | [] => []
  | det :: rest =>
      (if category_present earlier det then [] else [det])
      ++ first_seen (earlier ++ [det]) rest
  end.

(** The vehicle rule in the words of the specification. *)
Definition high_saturation (cv : CV2) (roi : Image) : bool :=
  let saturation := saturation_channel (map (map (bgr2hsv cv)) roi) in
  Float.gtb (inject_Z (Z.of_nat (count_above 100 saturation))
             / inject_Z (Z.of_nat (pixel_count roi)))%Q (3 # 10).

Definition vehicle_like (cv : CV2) (image : Image) (contour : Contour) : bool :=
  let '(x, y, w, h) := boundingRect cv contour in
  let aspect_ratio := (inject_Z w / inject_Z h)%Q in
  Float.gtb (contourArea cv contour) 5000
  && Float.ltb (12 # 10) aspect_ratio && Float.ltb aspect_ratio 4
  && (100 <? w)%Z && (50 <? h)%Z
  && high_saturation cv (crop image x y w h).

Definition rect_height (r : Rect) : Z := let '(_, _, _, h) := r in h.

(** The animal rule: a contour of 2000 to 50000 pixels, of aspect ratio
    between 0.5 and 3.0, whose region varies in brightness by more than
    100. *)
Definition animal_like (cv : CV2) (gray : Gray) (contour : Contour) : bool :=
  let '(x, y, w, h) := boundingRect cv contour in
  let aspect_ratio := (inject_Z w / inject_Z h)%Q in
  Float.ltb 2000 (contourArea cv contour)
  && Float.ltb (contourArea cv contour) 50000
  && Float.ltb (5 # 10) aspect_ratio && Float.ltb aspect_ratio 3
  && Float.gtb (np_var (crop gray x y w h)) 100.

Definition animal_found (cv : CV2) (gray : Gray) (contour : Contour)
  : Detection :=
  let '(x, y, w, h) := boundingRect cv contour in
  animal_detection (contourArea cv contour) (np_var (crop gray x y w h))
                   (x, y, w, h).

(** The raw class scores of the network outputs. *)
Definition class_scores (outputs : list (list (list Q))) : list Q :=
  flat_map (flat_map (skipn 5)) outputs.

(** A score that is the highest class score of a row of the outputs. *)
Definition row_peak (outputs : list (list (list Q))) (c : Q) : Prop :=
  exists output row,
    In output outputs /\ In row output
    /\ In c (skipn 5 row) /\ Forall (fun s => (s <= c)%Q) (skipn 5 row).

(** The primary stage of [analyze_image]: YOLO when a network is loaded. *)
Definition primary_stage (cv : CV2) (self : Detector) (image : Image)
  : M (list Detection) :=
  match net self with
  | Some _ => _detect_with_yolo cv self image
  | None => ret []
  end.

(** ** Test fixtures: concrete instances of the [cv2] functions *)

Module Fixture.

(** [cv2.boundingRect] of a polygon: the up-right rectangle around its
    points, in pixels. *)
Definition cv_boundingRect (c : Contour) : Rect :=
  match map fst c, map snd c with
  | x0 :: xs, y0 :: ys =>
      let x_min := list_min x0 xs in
      let y_min := list_min y0 ys in
      (x_min, y_min, list_max x0 xs - x_min + 1, list_max y0 ys - y_min + 1)%Z
  | _, _ => (0, 0, 0, 0)%Z
  end.

(** [cv2.contourArea]: the shoelace formula. *)
Fixpoint shoelace (first : Z * Z) (c : Contour) : Z :=
  match c with
  | [] => 0%Z
  | [(x, y)] => (x * snd first - fst first * y)%Z
  | (x, y) :: (((x', y') :: _) as c') =>
      (x * y' - x' * y + shoelace first c')%Z
  end.

Definition cv_contourArea (c : Contour) : Q :=
  match c with
  | [] => 0%Q
  | p :: _ => (inject_Z (Z.abs (shoelace p c)) / 2)%Q
  end.

(** A stubbed backend: one readable frame, fixed network outputs, fixed
    HOG windows, fixed contours and line segments, and a colour conversion
    that reports full saturation. *)
Definition stub (frame : Image) (outputs : list (list (list Q)))
    (people : list Rect * list (list Q)) (contours : list Contour)
    (lines : option (list (Z * Z * Z * Z))) : CV2 :=
  {| imread := fun path => if String.eqb path "frame.jpg" then Some frame else None;
     bgr2gray := cv_bgr2gray;
     bgr2hsv := fun _ => (0, 255, 200)%Z;
     readNetFromDarknet := fun config weights => Return (DarknetNet config weights);
     getLayerNames := fun _ => ["conv_0"; "yolo_82"; "yolo_94"; "yolo_106"];
     getUnconnectedOutLayers := fun _ => [[2]; [3]; [4]]%Z;
     forward := fun _ _ _ => Return outputs;
     detectMultiScale := fun _ => Return people;
     Canny := fun gray _ _ => Return gray;
     findContours := fun _ => Return contours;
     contourArea := cv_contourArea;
     boundingRect := cv_boundingRect;
     HoughLinesP := fun _ => Return lines |}.

Definition solid (v : Z) (rows cols : nat) : Image :=
  repeat (repeat (v, v, v) cols) rows.

(** A file system holding exactly the listed paths; every file reads as
    the two class names below. *)
Definition files (present : list string) : FileSystem :=
  {| path_exists := fun p => str_in p present;
     readlines := fun _ => Return ["person" ++ String "010" ""; "TV" ++ String "010" ""]%string |}.

(** A detector with the tiny model loaded and the COCO class names. *)
Definition loaded : Detector :=
  {| net := Some (DarknetNet tiny_config tiny_weights);
     classes := coco_classes;
     output_layers := ["yolo_82"; "yolo_94"; "yolo_106"];
     confidence_threshold := 5 # 10;
     nms_threshold := 4 # 10 |}.

(** A detector without a model. *)
Definition bare : Detector :=
  {| net := None; classes := coco_classes; output_layers := [];
     confidence_threshold := 5 # 10; nms_threshold := 4 # 10 |}.

(** One anchor row: centre, size, objectness, then the class scores. *)
Definition anchor (cx cy w h : Q) (scores : list Q) : list Q :=
  [cx; cy; w; h; 1%Q] ++ scores.

(** The outline of a rectangle, as a contour. *)
Definition rectangle (x y w h : Z) : Contour :=
  [(x, y); (x, y + h - 1); (x + w - 1, y + h - 1); (x + w - 1, y)]%Z.

End Fixture.

(** * Properties *)

(** ** Float comparisons *)

Lemma gtb_lt x y : Float.gtb x y = true <-> (y < x)%Q.
Proof.
  unfold Float.gtb. rewrite negb_true_iff. split.
  - intros H. apply Qnot_le_lt. intros Hle.
    apply Qle_bool_iff in Hle. congruence.
  - intros H. destruct (Qle_bool x y) eqn:E; [|reflexivity].
    apply Qle_bool_iff in E. exfalso. exact (Qlt_not_le _ _ H E).
Qed.

Lemma gtb_le x y : Float.gtb x y = false <-> (x <= y)%Q.
Proof. unfold Float.gtb. rewrite negb_false_iff. apply Qle_bool_iff. Qed.

Lemma ltb_lt x y : Float.ltb x y = true <-> (x < y)%Q.
Proof. unfold Float.ltb. apply gtb_lt. Qed.

Lemma gtb_Qeq x x' y : (x == x')%Q -> Float.gtb x y = Float.gtb x' y.
Proof.
  intros E. destruct (Float.gtb x' y) eqn:H.
  - apply gtb_lt. apply gtb_lt in H. now rewrite E.
  - apply gtb_le. apply gtb_le in H. now rewrite E.
Qed.

Lemma fmin_le_l a b : (Float.min a b <= a)%Q.
Proof.
  unfold Float.min. destruct (Float.ltb b a) eqn:E.
  - apply ltb_lt in E. now apply Qlt_le_weak.
  - apply Qle_refl.
Qed.

Lemma fmin_le_r a b : (Float.min a b <= b)%Q.
Proof.
  unfold Float.min. destruct (Float.ltb b a) eqn:E.
  - apply Qle_refl.
  - unfold Float.ltb in E. now apply gtb_le in E.
Qed.

Lemma fmin_gt a b c : (c < a)%Q -> (c < b)%Q -> (c < Float.min a b)%Q.
Proof. intros Ha Hb. unfold Float.min. now destruct (Float.ltb b a). Qed.

(** ** Strings *)

Lemma str_in_spec x l : str_in x l = true <-> In x l.
Proof.
  unfold str_in. rewrite existsb_exists. split.
  - intros (y & Hy & E). apply String.eqb_eq in E. now subst.
  - intros H. exists x. split; [assumption | apply String.eqb_refl].
Qed.

Lemma str_in_false x l : str_in x l = false <-> ~ In x l.
Proof.
  rewrite <- str_in_spec. destruct (str_in x l); split; congruence.
Qed.



(** ** The category lookup *)

(** C6, as the code has it: the lookup works on the lower-cased class
    name. "person" maps to "human", the listed animals to "animal", the
    classes of the heavy-vehicle list (truck, bus, train) to "machinery"
    even when they are also on the transport list, the remaining
    transport classes to "vehicle", and any other class to its lower-cased
    name. *)
Theorem categorize_object_table (class_name : string) :
  let name := lower class_name in
  (In name humans -> _categorize_object class_name = "human")
  /\ (In name animals -> _categorize_object class_name = "animal")
  /\ (In name machinery -> _categorize_object class_name = "machinery")
  /\ (In name vehicles -> ~ In name machinery ->
      _categorize_object class_name = "vehicle")
  /\ (~ In name (humans ++ animals ++ vehicles ++ machinery) ->
      _categorize_object class_name = name).
Proof.
  intros name. unfold _categorize_object. fold name.
  repeat split.
  - intros H. apply str_in_spec in H. now rewrite H.
  - intros H. simpl in H.
    repeat (destruct H as [<-|H]; [reflexivity|]). destruct H.
  - intros H. simpl in H.
    repeat (destruct H as [<-|H]; [reflexivity|]). destruct H.
  - intros H Hm. apply str_in_false in Hm. simpl in H.
    repeat (destruct H as [<-|H]; [first [reflexivity | discriminate Hm]|]).
    destruct H.
  - intros H.
    assert (Hh : str_in name humans = false).
    { apply str_in_false. intros Hin. apply H. apply in_or_app. now left. }
    assert (Ha : str_in name animals = false).
    { apply str_in_false. intros Hin. apply H.
      apply in_or_app. right. apply in_or_app. now left. }
    assert (Hv : str_in name vehicles = false).
    { apply str_in_false. intros Hin. apply H.
      do 2 (apply in_or_app; right). apply in_or_app. now left. }
    assert (Hm : str_in name machinery = false).
    { apply str_in_false. intros Hin. apply H.
      do 3 (apply in_or_app; right). assumption. }
    now rewrite Hh, Ha, Hm, Hv.
Qed.

Lemma categorize_object_table_witness :
  _categorize_object "Person" = "human"
  /\ _categorize_object "zebra" = "animal"
  /\ _categorize_object "truck" = "machinery"
  /\ _categorize_object "boat" = "vehicle"
  /\ _categorize_object "Traffic Light" = "traffic light".
Proof.
  split; [|split; [|split; [|split]]].
  - apply (categorize_object_table "Person"). simpl. tauto.
  - apply (categorize_object_table "zebra"). simpl. tauto.
  - apply (categorize_object_table "truck"). simpl. tauto.
  - apply (categorize_object_table "boat").
    + simpl. tauto.
    + simpl. intros [H|[H|[H|[]]]]; discriminate H.
  - apply (categorize_object_table "Traffic Light").
    simpl. intros H.
    repeat (destruct H as [H|H]; [discriminate H|]). destruct H.
Defined.

(** C6 as stated fails on a class name with capital letters: "TV" is on
    none of the lists and its category is "tv", not its own name. *)
Lemma categorize_object_keeps_name_counterexample :
  ~ (forall class_name,
        ~ In class_name (humans ++ animals ++ vehicles ++ machinery) ->
        _categorize_object class_name = class_name).
Proof.
  intros H. specialize (H "TV").
  assert (E : _categorize_object "TV" = "tv") by reflexivity.
  rewrite E in H. enough ("tv" = "TV") by discriminate.
  apply H. simpl. intros Hin.
  repeat (destruct Hin as [Hin|Hin]; [discriminate Hin|]). destruct Hin.
Qed.

(** ** The monad *)

Lemma outcome_bind {A B} (m : M A) (k : A -> M B) :
  outcome (bind m k) =
  match outcome m with
  | Return a => outcome (k a)
  | Raise e => Raise e
  end.
Proof.
  destruct m as [t [a|e]]; simpl; [|reflexivity].
  now destruct (k a).
Qed.


Lemma bind_Return {A B} (m : M A) (k : A -> M B) t b :
  bind m k = (t, Return b) ->
  exists t1 a t2, m = (t1, Return a) /\ k a = (t2, Return b) /\ t = t1 ++ t2.
Proof.
  destruct m as [t1 [a|e]]; simpl; [|discriminate].
  destruct (k a) as [t2 r] eqn:E. intros [= <- ->].
  now exists t1, a, t2.
Qed.

Lemma outcome_guarded label r : outcome (guarded label r) = Return (fst r).
Proof. now destruct r as [dets [e|]]. Qed.

(** ** The scene classifier *)

Lemma sumQ_inject (l : list Z) : (sumQ (map inject_Z l) == inject_Z (sumZ l))%Q.
Proof.
  induction l as [|v l IH]; simpl; [reflexivity|].
  now rewrite IH, inject_Z_plus.
Qed.

Lemma count_range_step (a : nat) (hi : Z) (l : list Z) :
  (Z.of_nat a < hi)%Z ->
  (count_eq a l + count_range (Z.of_nat (S a)) hi l
   = count_range (Z.of_nat a) hi l)%Z.
Proof.
  intros Hlt. unfold count_eq, count_range.
  induction l as [|v l IH]; simpl; [reflexivity|].
  destruct (Z.eqb_spec (Z.of_nat a) v) as [E|E];
    destruct (Z.leb_spec (Z.of_nat (S a)) v);
    destruct (Z.leb_spec (Z.of_nat a) v);
    destruct (Z.ltb_spec v hi); simpl length; lia.
Qed.

Lemma count_range_empty (a : Z) (l : list Z) : count_range a a l = 0%Z.
Proof.
  unfold count_range. induction l as [|v l IH]; simpl; [reflexivity|].
  destruct (Z.leb_spec a v); destruct (Z.ltb_spec v a); simpl; lia.
Qed.

Lemma sum_bins (l : list Z) (n a : nat) :
  sumZ (map (fun b => count_eq b l) (seq a n))
  = count_range (Z.of_nat a) (Z.of_nat (a + n)) l.
Proof.
  revert a. induction n as [|n IH]; intros a; simpl.
  - rewrite Nat.add_0_r. now rewrite count_range_empty.
  - rewrite IH. replace (S a + n)%nat with (a + S n)%nat by lia.
    apply count_range_step. lia.
Qed.

Lemma hist_slice_sum (gray : Gray) (a n : nat) :
  (sumQ (map (fun b : nat =>
                inject_Z (Z.of_nat (length (List.filter (Z.eqb (Z.of_nat b))
                                                        (concat gray)))))
             (seq a n))
   == inject_Z (bins_sum (Z.of_nat a) (Z.of_nat (a + n)) gray))%Q.
Proof.
  change (sumQ (map (fun b => inject_Z (count_eq b (concat gray))) (seq a n))
          == inject_Z (count_range (Z.of_nat a) (Z.of_nat (a + n)) (concat gray)))%Q.
  rewrite <- sum_bins, <- sumQ_inject, map_map. reflexivity.
Qed.

Lemma bright_pixels_sum (gray : Gray) :
  (sumQ (skipn 128 (calcHist gray)) == inject_Z (bins_sum 128 256 gray))%Q.
Proof.
  unfold calcHist. rewrite List.skipn_map.
  change (skipn 128 (seq 0 256)) with (seq 128 128).
  apply (hist_slice_sum gray 128 128).
Qed.

Lemma dark_pixels_sum (gray : Gray) :
  (sumQ (firstn 128 (calcHist gray)) == inject_Z (bins_sum 0 128 gray))%Q.
Proof.
  unfold calcHist. rewrite List.firstn_map.
  change (firstn 128 (seq 0 256)) with (seq 0 128).
  apply (hist_slice_sum gray 0 128).
Qed.

Lemma is_day_of_gray_spec (gray : Gray) :
  is_day_of_gray gray = true <-> spec_is_day gray.
Proof.
  unfold is_day_of_gray, spec_is_day. cbv zeta.
  rewrite orb_true_iff, andb_true_iff, !gtb_lt.
  rewrite bright_pixels_sum, dark_pixels_sum.
  rewrite (Qmult_comm (inject_Z (bins_sum 0 128 gray)) (3 # 2)).
  reflexivity.
Qed.

Lemma sumZ_const (v : Z) (l : list Z) :
  Forall (fun x => x = v) l -> sumZ l = (v * Z.of_nat (length l))%Z.
Proof.
  induction 1 as [|x l -> _ IH]; simpl length; simpl sumZ; [lia|].
  rewrite IH. lia.
Qed.

Lemma uniform_gray (cv : CV2) (v : Z) (image : Image) :
  uniform v image -> bgr2gray cv (v, v, v) = v ->
  Forall (fun x => x = v) (concat (map (map (bgr2gray cv)) image)).
Proof.
  intros Hu Hg. induction Hu as [|row image Hrow _ IH]; simpl; [constructor|].
  apply Forall_app. split; [|exact IH].
  induction Hrow as [|p row -> _ IHrow]; simpl; constructor; assumption.
Qed.

Lemma pixel_count_map {A B} (f : A -> B) (img : list (list A)) :
  pixel_count (map (map f) img) = pixel_count img.
Proof.
  unfold pixel_count. induction img as [|row img IH]; simpl; [reflexivity|].
  rewrite !length_app, IH. now rewrite length_map.
Qed.

Lemma np_mean_const (v : Z) (gray : Gray) :
  pixel_count gray <> 0%nat -> Forall (fun x => x = v) (concat gray) ->
  (np_mean gray == inject_Z v)%Q.
Proof.
  intros Hn Hall. unfold np_mean. rewrite (sumZ_const v _ Hall).
  fold (pixel_count gray). rewrite inject_Z_mult.
  field. intros H. apply Hn.
  unfold Qeq in H. simpl in H. lia.
Qed.

Lemma cv_bgr2gray_gray (v : Z) : (0 <= v)%Z -> cv_bgr2gray (v, v, v) = v.
Proof.
  intros Hv. unfold cv_bgr2gray. rewrite Z.shiftr_div_pow2 by lia.
  change (2 ^ 14)%Z with 16384%Z.
  replace (1868 * v + 9617 * v + 4899 * v + 8192)%Z
    with (v * 16384 + 8192)%Z by lia.
  rewrite Z.div_add_l by lia. change (8192 / 16384)%Z with 0%Z. lia.
Qed.

(** C4: on a non-empty image the classifier returns, without any other
    effect, a value determined by the gray image alone; that value is
    [true] exactly when the mean brightness exceeds 80, or exceeds 50
    while the upper-half bins of the histogram sum to more than 1.5 times
    the lower-half bins. A uniform image of value 200 is classified as
    day, one of value 10 as night. *)
Theorem day_night_classifier (cv : CV2) (image : Image) :
  pixel_count image <> 0%nat ->
  let gray := map (map (bgr2gray cv)) image in
  _analyze_day_night cv image = ([], Return (is_day_of_gray gray))
  /\ (is_day_of_gray gray = true <-> spec_is_day gray)
  /\ (uniform 200 image -> bgr2gray cv (200, 200, 200)%Z = 200%Z ->
      is_day_of_gray gray = true)
  /\ (uniform 10 image -> bgr2gray cv (10, 10, 10)%Z = 10%Z ->
      is_day_of_gray gray = false).
Proof.
  intros Hne gray.
  assert (Hg : pixel_count gray <> 0%nat)
    by (unfold gray; now rewrite pixel_count_map).
  split; [|split; [|split]].
  - unfold _analyze_day_night, cvtColor.
    destruct (pixel_count image); [congruence | reflexivity].
  - apply is_day_of_gray_spec.
  - intros Hu H200.
    pose proof (np_mean_const 200 gray Hg (uniform_gray cv _ _ Hu H200)) as Hm.
    unfold is_day_of_gray. cbv zeta.
    rewrite (gtb_Qeq _ _ 80 Hm). reflexivity.
  - intros Hu H10.
    pose proof (np_mean_const 10 gray Hg (uniform_gray cv _ _ Hu H10)) as Hm.
    unfold is_day_of_gray. cbv zeta.
    rewrite (gtb_Qeq _ _ 80 Hm), (gtb_Qeq _ _ 50 Hm). reflexivity.
Qed.

Lemma day_night_classifier_witness :
  let cv := Fixture.stub [] [] ([], []) [] None in
  _analyze_day_night cv (Fixture.solid 200 2 3) = ([], Return true)
  /\ _analyze_day_night cv (Fixture.solid 10 2 3) = ([], Return false).
Proof.
  intros cv. split.
  - destruct (day_night_classifier cv (Fixture.solid 200 2 3))
      as (Hrun & _ & Hday & _); [vm_compute; discriminate|].
    rewrite Hrun, Hday; [reflexivity | | reflexivity].
    repeat constructor.
  - destruct (day_night_classifier cv (Fixture.solid 10 2 3))
      as (Hrun & _ & _ & Hnight); [vm_compute; discriminate|].
    rewrite Hrun, Hnight; [reflexivity | | reflexivity].
    repeat constructor.
Defined.

(** ** The machinery heuristic *)

Lemma list_min_le (l : list Z) (x : Z) :
  (list_min x l <= x)%Z /\ Forall (fun y => (list_min x l <= y)%Z) l.
Proof.
  unfold list_min. revert x. induction l as [|y l IH]; intros x; simpl.
  - split; [lia | constructor].
  - destruct (IH (Z.min x y)) as [H1 H2]. split; [lia|].
    constructor; [lia | exact H2].
Qed.

Lemma list_max_ge (l : list Z) (x : Z) :
  (x <= list_max x l)%Z /\ Forall (fun y => (y <= list_max x l)%Z) l.
Proof.
  unfold list_max. revert x. induction l as [|y l IH]; intros x; simpl.
  - split; [lia | constructor].
  - destruct (IH (Z.max x y)) as [H1 H2]. split; [lia|].
    constructor; [lia | exact H2].
Qed.

Lemma list_min_max_bounds (x0 : Z) (xs : list Z) (x : Z) :
  In x (x0 :: xs) -> (list_min x0 xs <= x <= list_max x0 xs)%Z.
Proof.
  destruct (list_min_le xs x0) as [Hm0 Hm].
  destruct (list_max_ge xs x0) as [HM0 HM].
  rewrite List.Forall_forall in Hm, HM.
  intros [<-|Hin]; [lia|].
  specialize (Hm _ Hin). specialize (HM _ Hin). lia.
Qed.

Lemma line_regions_points (lines : list (Z * Z * Z * Z)) :
  concat (map (fun l => let '(x1, y1, x2, y2) := l in [(x1, y1); (x2, y2)])
              lines)
  = segment_points lines.
Proof. unfold segment_points. now rewrite flat_map_concat_map. Qed.

(** The detections the machinery detector can append: none, or one whose
    box spans the extreme coordinates of the segment endpoints. *)
Lemma machinery_of_lines_spec (lines : option (list (Z * Z * Z * Z))) :
  (length (machinery_of_lines lines) <= 1)%nat
  /\ forall det, In det (machinery_of_lines lines) ->
       category det = "machinery"
       /\ exists segments x y w h,
            lines = Some segments
            /\ bbox det = [x; y; w; h]
            /\ forall px py, In (px, py) (segment_points segments) ->
                 (x <= px <= x + w)%Z /\ (y <= py <= y + h)%Z.
Proof.
  unfold machinery_of_lines.
  destruct lines as [segments|]; [|split; [simpl; lia | intros ? []]].
  destruct (20 <? length segments)%nat; [|split; [simpl; lia | intros ? []]].
  destruct (10 <? length (map _ segments))%nat;
    [|split; [simpl; lia | intros ? []]].
  rewrite line_regions_points.
  destruct (map fst (segment_points segments)) as [|x0 xs] eqn:Exs;
    [split; [simpl; lia | intros ? []]|].
  destruct (map snd (segment_points segments)) as [|y0 ys] eqn:Eys;
    [split; [simpl; lia | intros ? []]|].
  destruct ((100 <? list_max x0 xs - list_min x0 xs)%Z
            && (100 <? list_max y0 ys - list_min y0 ys)%Z);
    [|split; [simpl; lia | intros ? []]].
  split; [simpl; lia|].
  intros det [<-|[]]. split; [reflexivity|].
  exists segments, (list_min x0 xs), (list_min y0 ys),
    (list_max x0 xs - list_min x0 xs)%Z, (list_max y0 ys - list_min y0 ys)%Z.
  split; [reflexivity|]. split; [reflexivity|].
  intros px py Hin.
  assert (Hx : In px (x0 :: xs))
    by (rewrite <- Exs; apply (in_map fst _ _ Hin)).
  assert (Hy : In py (y0 :: ys))
    by (rewrite <- Eys; apply (in_map snd _ _ Hin)).
  apply list_min_max_bounds in Hx. apply list_min_max_bounds in Hy. lia.
Qed.

(** C10: the machinery detector always returns, and what it returns is
    the empty list or a single detection of category "machinery" whose
    box encloses every endpoint of the extracted line segments. *)
Theorem machinery_at_most_one (cv : CV2) (image : Image) (gray : Gray) :
  exists detections,
    outcome (_detect_machinery_edges cv image gray) = Return detections
    /\ (length detections <= 1)%nat
    /\ forall det, In det detections ->
         category det = "machinery"
         /\ exists edges segments x y w h,
              Canny cv gray 100 200 = Return edges
              /\ HoughLinesP cv edges = Return (Some segments)
              /\ bbox det = [x; y; w; h]
              /\ forall px py, In (px, py) (segment_points segments) ->
                   (x <= px <= x + w)%Z /\ (y <= py <= y + h)%Z.
Proof.
  unfold _detect_machinery_edges.
  rewrite outcome_bind. simpl outcome at 2. cbv iota.
  rewrite outcome_guarded.
  destruct (Canny cv gray 100 200) as [edges|e] eqn:Ec; simpl obind.
  - destruct (HoughLinesP cv edges) as [lines|e] eqn:Eh; simpl fst.
    + exists (machinery_of_lines lines).
      destruct (machinery_of_lines_spec lines) as [Hlen Hdet].
      split; [reflexivity|]. split; [exact Hlen|].
      intros det Hin. destruct (Hdet det Hin) as (Hc & segs & x & y & w & h & -> & Hb & Hp).
      split; [exact Hc|]. now exists edges, segs, x, y, w, h.
    + exists []. split; [reflexivity|]. split; [simpl; lia | intros ? []].
  - exists []. split; [reflexivity|]. split; [simpl; lia | intros ? []].
Qed.

Lemma machinery_at_most_one_witness :
  let segments := repeat (0, 0, 150, 150)%Z 21 in
  let cv := Fixture.stub [] [] ([], []) [] (Some segments) in
  exists det,
    outcome (_detect_machinery_edges cv [] []) = Return [det]
    /\ category det = "machinery"
    /\ bbox det = [0; 0; 150; 150]%Z.
Proof.
  intros segments cv.
  destruct (machinery_at_most_one cv [] []) as (dets & Hrun & Hlen & Hdet).
  rewrite Hrun. vm_compute in Hrun. injection Hrun as <-.
  eexists. split; [reflexivity|].
  split; [apply Hdet; left; reflexivity | reflexivity].
Defined.

(** ** The vehicle heuristic *)

(** A loop whose iterations do not raise appends what each iteration
    yields, in order. *)
Lemma loop_append_total {X} (step : X -> Outcome (option Detection))
    (f : X -> option Detection) (l : list X) (acc : list Detection) :
  Forall (fun x => step x = Return (f x)) l ->
  loop_append step l acc = (acc ++ omap f l, None).
Proof.
  intros H. revert acc. induction H as [|x l Hx _ IH]; intros acc; simpl.
  - now rewrite app_nil_r.
  - rewrite Hx. destruct (f x) as [det|]; rewrite IH; [|reflexivity].
    now rewrite <- app_assoc.
Qed.

Lemma omap_filter {X Y} (p : X -> bool) (g : X -> Y) (l : list X) :
  omap (fun x => if p x then Some (g x) else None) l = map g (List.filter p l).
Proof.
  induction l as [|x l IH]; [reflexivity|].
  change (omap (fun x => if p x then Some (g x) else None) (x :: l))
    with (match (if p x then Some (g x) else None) with
          | Some y => y :: omap (fun x => if p x then Some (g x) else None) l
          | None => omap (fun x => if p x then Some (g x) else None) l
          end).
  rewrite IH. simpl List.filter. now destruct (p x).
Qed.

Lemma pixel_count_zero_concat {A} (img : list (list A)) :
  pixel_count img = 0%nat -> concat img = [].
Proof. unfold pixel_count. now destruct (concat img). Qed.

Lemma concat_map_map {A B} (f : A -> B) (img : list (list A)) :
  concat (map (map f) img) = map f (concat img).
Proof.
  induction img as [|row img IH]; simpl; [reflexivity|].
  now rewrite IH, map_app.
Qed.

Lemma has_artificial_colors_spec (cv : CV2) (roi : Image) :
  _has_artificial_colors cv roi = Return (high_saturation cv roi).
Proof.
  unfold _has_artificial_colors, high_saturation, cvtColor.
  destruct (pixel_count roi) as [|n] eqn:En.
  - simpl. f_equal. unfold count_above, saturation_channel.
    rewrite !concat_map_map, (pixel_count_zero_concat _ En). reflexivity.
  - replace (S n * 3 =? 0)%nat with false
      by (symmetry; apply Nat.eqb_neq; lia).
    simpl obind. unfold saturation_channel at 2.
    now rewrite !pixel_count_map, En.
Qed.

Lemma vehicle_step_spec (cv : CV2) (image : Image) (c : Contour) :
  rect_height (boundingRect cv c) <> 0%Z ->
  vehicle_step cv image c =
  Return (if vehicle_like cv image c
          then Some (vehicle_detection (contourArea cv c) (boundingRect cv c))
          else None).
Proof.
  unfold vehicle_step, vehicle_like, rect_height.
  destruct (boundingRect cv c) as [[[x y] w] h]. intros Hh.
  destruct (Float.gtb (contourArea cv c) 5000); [|reflexivity].
  unfold py_truediv. rewrite (proj2 (Z.eqb_neq h 0) Hh). simpl obind.
  rewrite has_artificial_colors_spec. simpl andb.
  destruct (Float.ltb (12 # 10) (inject_Z w / inject_Z h)
            && Float.ltb (inject_Z w / inject_Z h) 4
            && (100 <? w)%Z && (50 <? h)%Z); [|reflexivity].
  simpl. now destruct (high_saturation cv (crop image x y w h)).
Qed.

Lemma vehicle_like_confidence (cv : CV2) (image : Image) (c : Contour) :
  vehicle_like cv image c = true ->
  (0 < confidence (vehicle_detection (contourArea cv c) (boundingRect cv c))
   <= 7 # 10)%Q.
Proof.
  unfold vehicle_like. destruct (boundingRect cv c) as [[[x y] w] h].
  rewrite !andb_true_iff. intros [[[[[Ha _] _] _] _] _].
  apply gtb_lt in Ha. simpl confidence. split; [|apply fmin_le_l].
  apply fmin_gt; [reflexivity|].
  apply Qlt_shift_div_l; [reflexivity|].
  apply Qlt_trans with 5000%Q; [reflexivity | exact Ha].
Qed.

(** C8: when edge detection and contour extraction succeed (every
    bounding rectangle having a height), the vehicle heuristic returns,
    in order, one detection per contour that is vehicle-like (area above
    5000, aspect ratio strictly between 1.2 and 4.0, width over 100,
    height over 50, more than 30% of the region's pixels with saturation
    above 100), each of category "vehicle" with confidence
    min(0.7, area/50000), which lies in (0, 0.7]. A single qualifying
    contour gives exactly one detection, on the contour's bounding box. *)
Theorem vehicle_heuristic_exact (cv : CV2) (image : Image) (gray edges : Gray)
    (contours : list Contour) :
  Canny cv gray 50 150 = Return edges ->
  findContours cv edges = Return contours ->
  Forall (fun c => rect_height (boundingRect cv c) <> 0%Z) contours ->
  let found :=
    map (fun c => vehicle_detection (contourArea cv c) (boundingRect cv c))
        (List.filter (vehicle_like cv image) contours) in
  outcome (_detect_vehicles_contours cv image gray) = Return found
  /\ Forall (fun det =>
               class det = "vehicle" /\ category det = "vehicle"
               /\ exists c, In c contours /\ vehicle_like cv image c = true
                    /\ confidence det
                       = Float.min (7 # 10) (contourArea cv c / 50000)
                    /\ bbox det = rect_list (boundingRect cv c)
                    /\ (0 < confidence det <= 7 # 10)%Q) found
  /\ (forall c, contours = [c] -> vehicle_like cv image c = true ->
      exists det, found = [det] /\ category det = "vehicle"
                  /\ bbox det = rect_list (boundingRect cv c)
                  /\ (0 < confidence det <= 7 # 10)%Q).
Proof.
  intros Hc Hf Hh found. split; [|split].
  - unfold _detect_vehicles_contours.
    rewrite outcome_bind. simpl outcome at 2. cbv iota.
    rewrite outcome_guarded, Hc. simpl obind. rewrite Hf.
    rewrite (loop_append_total _
               (fun c => if vehicle_like cv image c
                         then Some (vehicle_detection (contourArea cv c)
                                                      (boundingRect cv c))
                         else None)).
    + simpl. now rewrite omap_filter.
    + eapply List.Forall_impl; [|exact Hh].
      intros c Hc0. now apply vehicle_step_spec.
  - unfold found. apply List.Forall_forall. intros det Hin.
    apply in_map_iff in Hin. destruct Hin as (c & <- & Hin).
    apply filter_In in Hin. destruct Hin as [Hin Hv].
    split; [reflexivity|]. split; [reflexivity|].
    exists c. repeat split; try assumption; try reflexivity;
      now apply (vehicle_like_confidence cv image c).
  - intros c -> Hv. unfold found. simpl. rewrite Hv. simpl.
    eexists. split; [reflexivity|]. split; [reflexivity|].
    split; [reflexivity|]. now apply (vehicle_like_confidence cv image c).
Qed.

Lemma vehicle_heuristic_exact_witness :
  let frame := Fixture.solid 30 120 160 in
  let outline := Fixture.rectangle 20 30 120 60 in
  let cv := Fixture.stub frame [] ([], []) [outline] None in
  exists det,
    outcome (_detect_vehicles_contours cv frame []) = Return [det]
    /\ category det = "vehicle"
    /\ bbox det = [20; 30; 120; 60]%Z
    /\ (0 < confidence det <= 7 # 10)%Q.
Proof.
  intros frame outline cv.
  destruct (vehicle_heuristic_exact cv frame [] [] [outline])
    as (Hrun & _ & Hone).
  - reflexivity.
  - reflexivity.
  - repeat constructor. vm_compute. discriminate.
  - destruct (Hone outline) as (det & Hdet & Hcat & Hbox & Hconf).
    + reflexivity.
    + vm_compute. reflexivity.
    + exists det. rewrite Hrun, Hdet.
      split; [reflexivity|]. split; [exact Hcat|].
      split; [rewrite Hbox; vm_compute; reflexivity | exact Hconf].
Defined.

(** ** Model loading *)




(** ** The orchestrator *)


Lemma outcome_bind_Return {A B} (m : M A) (k : A -> M B) (b : B) :
  outcome (bind m k) = Return b ->
  exists a, outcome m = Return a /\ outcome (k a) = Return b.
Proof.
  rewrite outcome_bind. destruct (outcome m) as [a|e]; [|discriminate].
  intros H. now exists a.
Qed.

Lemma outcome_try_except {A} (body : M A) (handler : Exception -> M A) :
  outcome (try_except body handler) =
  match outcome body with
  | Return a => Return a
  | Raise e => outcome (handler e)
  end.
Proof.
  destruct body as [t [a|e]]; simpl; [reflexivity|].
  now destruct (handler e).
Qed.


Lemma outcome_analyze_image (cv : CV2) (self : Detector) (path : string) :
  outcome (analyze_image cv self path) =
  match outcome (analyze_image_body cv self path) with
  | Return r => Return r
  | Raise e => Return (degraded_result path e)
  end.
Proof.
  unfold analyze_image. rewrite outcome_try_except.
  now destruct (outcome (analyze_image_body cv self path)).
Qed.








(** *** Categories of a result *)

Lemma category_list_In (detections : list Detection) (c : string) :
  In c (category_list detections)
  <-> exists d, In d detections /\ category d = c.
Proof.
  unfold category_list.
  rewrite <- list_elem_of_In, elem_of_elements, elem_of_list_to_set,
    list_elem_of_In, in_map_iff.
  split; intros (d & H1 & H2); exists d; auto.
Qed.

Lemma category_list_nil (detections : list Detection) :
  category_list detections = [] <-> detections = [].
Proof.
  split.
  - intros H. destruct detections as [|d l]; [reflexivity|].
    assert (Hin : In (category d) (category_list (d :: l)))
      by (apply category_list_In; exists d; split; [now left | reflexivity]).
    rewrite H in Hin. destruct Hin.
  - intros ->. unfold category_list. simpl.
    exact (elements_empty (C := gset string)).
Qed.

Lemma category_list_NoDup (detections : list Detection) :
  List.NoDup (category_list detections).
Proof. apply NoDup_ListNoDup. unfold category_list. apply NoDup_elements. Qed.

(** The categories a result is built with. *)
Lemma body_categories (cv : CV2) (self : Detector) (path : string)
    (r : AnalysisResult) :
  outcome (analyze_image_body cv self path) = Return r ->
  photoPath r = path
  /\ objects r = match category_list (details r) with
                 | [] => ["general scene"]
                 | c :: l => c :: l
                 end.
Proof.
  unfold analyze_image_body. intros H.
  apply outcome_bind_Return in H. destruct H as (image & _ & H).
  apply outcome_bind_Return in H. destruct H as (is_day & _ & H).
  apply outcome_bind_Return in H. destruct H as (primary & _ & H).
  apply outcome_bind_Return in H. destruct H as (detections & _ & H).
  cbv zeta in H. injection H as <-. cbn [photoPath objects details].
  split; [reflexivity|]. now destruct (category_list detections).
Qed.

(** C1, as the code has it: the categories of a result are never empty.
    They are ["general scene"] when there are no detections; otherwise
    they are the categories of the detections, each listed once. *)
Theorem analysis_categories (cv : CV2) (self : Detector) (path : string) :
  exists r,
    outcome (analyze_image cv self path) = Return r
    /\ objects r <> []
    /\ (details r = [] -> objects r = ["general scene"])
    /\ (details r <> [] ->
        List.NoDup (objects r)
        /\ forall c, In c (objects r)
                     <-> exists d, In d (details r) /\ category d = c).
Proof.
  rewrite outcome_analyze_image.
  destruct (outcome (analyze_image_body cv self path)) as [r|e] eqn:Hbody.
  - exists r. split; [reflexivity|].
    destruct (body_categories _ _ _ _ Hbody) as [_ Hobj].
    destruct (category_list (details r)) as [|c l] eqn:Hcat.
    + apply category_list_nil in Hcat. rewrite Hobj.
      split; [discriminate|]. split; [reflexivity|]. congruence.
    + rewrite Hobj, <- Hcat. split; [rewrite Hcat; discriminate|].
      split.
      * intros Hnil. apply category_list_nil in Hnil. congruence.
      * intros _. split; [apply category_list_NoDup|].
        intros c0. apply category_list_In.
  - exists (degraded_result path e). split; [reflexivity|].
    cbn. split; [discriminate|]. split; [reflexivity|]. congruence.
Qed.

Lemma analysis_categories_witness :
  let cv := Fixture.stub (Fixture.solid 200 2 2) [] ([(1, 1, 2, 2)%Z], [[8 # 10]])
                         [] None in
  exists r,
    outcome (analyze_image cv Fixture.bare "frame.jpg") = Return r
    /\ forall c, In c (objects r) <-> c = "human".
Proof.
  intros cv.
  destruct (analysis_categories cv Fixture.bare "frame.jpg")
    as (r & Hrun & _ & _ & Hcats).
  exists r. split; [exact Hrun|].
  vm_compute in Hrun. injection Hrun as <-.
  destruct Hcats as [_ Hin]; [discriminate|].
  intros c. rewrite Hin. cbn [details]. split.
  - intros (d & [<-|[]] & <-). reflexivity.
  - intros ->. eexists. split; [now left | reflexivity].
Defined.

(** C1 as stated fails: a frame in which nothing is detected has no
    detections and yet one category, "general scene". *)
Lemma analysis_categories_iff_counterexample :
  ~ (forall cv self path r,
        outcome (analyze_image cv self path) = Return r ->
        (objects r <> [] <-> details r <> [])).
Proof.
  intros H.
  pose (cv := Fixture.stub (Fixture.solid 200 2 2) [] ([], []) [] None).
  specialize (H cv Fixture.bare "frame.jpg" _ eq_refl).
  vm_compute in H. destruct H as [H _].
  apply H; [discriminate | reflexivity].
Qed.

(** *** Fallback to the heuristic detectors *)





Lemma category_present_spec (detections : list Detection) (det : Detection) :
  category_present detections det = true
  <-> exists d, In d detections /\ category d = category det.
Proof.
  unfold category_present. rewrite existsb_exists.
  split; intros (d & Hin & H); exists d; split; auto;
    now apply String.eqb_eq.
Qed.

Lemma category_present_app (l1 l2 : list Detection) (det : Detection) :
  category_present (l1 ++ l2) det
  = category_present l1 det || category_present l2 det.
Proof. unfold category_present. apply existsb_app. Qed.

(** A detection whose category is already present does not change which
    categories are present. *)
Lemma category_present_redundant (l1 l2 : list Detection) (det x : Detection) :
  category_present l1 det = true ->
  category_present (l1 ++ det :: l2) x = category_present (l1 ++ l2) x.
Proof.
  intros Hp. rewrite !category_present_app.
  change (category_present (det :: l2) x)
    with (String.eqb (category det) (category x) || category_present l2 x).
  destruct (String.eqb_spec (category det) (category x)) as [E|E];
    [|reflexivity].
  replace (category_present l1 x) with true; [reflexivity|].
  symmetry. apply category_present_spec.
  apply category_present_spec in Hp. destruct Hp as (d & Hin & Hd).
  exists d. split; [assumption | congruence].
Qed.

Lemma first_seen_redundant (l1 l2 heuristic : list Detection) (det : Detection) :
  category_present l1 det = true ->
  first_seen (l1 ++ det :: l2) heuristic = first_seen (l1 ++ l2) heuristic.
Proof.
  intros Hp. revert l2. induction heuristic as [|x rest IH]; intros l2;
    [reflexivity|].
  simpl. rewrite (category_present_redundant l1 l2 det x Hp).
  f_equal. rewrite <- !app_assoc. simpl. apply IH.
Qed.

(** The merge loop keeps the detections it starts from and appends the
    heuristic detections that are the first of their category. *)
Lemma merge_detections_first_seen (detections heuristic : list Detection) :
  merge_detections detections heuristic
  = detections ++ first_seen detections heuristic.
Proof.
  unfold merge_detections. revert detections.
  induction heuristic as [|det rest IH]; intros detections; simpl.
  - now rewrite app_nil_r.
  - rewrite IH. unfold merge_step.
    destruct (category_present detections det) eqn:Hp; simpl.
    + f_equal. rewrite <- (app_nil_r detections) at 2.
      rewrite <- app_assoc. simpl.
      rewrite (first_seen_redundant detections [] rest det Hp).
      now rewrite app_nil_r.
    + now rewrite <- app_assoc.
Qed.




(** ** Non-maximum suppression *)

Lemma filter_Forall {A} (f : A -> bool) (P : A -> Prop) (l : list A) :
  Forall P l -> Forall P (List.filter f l).
Proof.
  induction 1 as [|x l Hx _ IH]; simpl; [constructor|].
  destruct (f x); [constructor|]; assumption.
Qed.

Lemma filter_holds {A} (f : A -> bool) (l : list A) :
  Forall (fun x => f x = true) (List.filter f l).
Proof.
  induction l as [|x l IH]; simpl; [constructor|].
  destruct (f x) eqn:E; [constructor|]; assumption.
Qed.

Lemma filter_fixed {A} (f : A -> bool) (l : list A) :
  Forall (fun x => f x = true) l -> List.filter f l = l.
Proof.
  induction 1 as [|x l Hx _ IH]; simpl; [reflexivity|].
  now rewrite Hx, IH.
Qed.

Section SuppressionFacts.
Context {A : Type} (score : A -> Q) (box : A -> Rect).
Variable (overlap : Rect -> Rect -> Q).
Variables (score_threshold nms_threshold : Q).

Local Abbreviation survives' := (survives box overlap nms_threshold).
Local Abbreviation greedy' := (greedy box overlap nms_threshold).
Local Abbreviation compatible' := (compatible box overlap nms_threshold).
Local Abbreviation descending' := (descending score).
Local Abbreviation sort_desc' := (sort_desc score).
Local Abbreviation insert_desc' := (insert_desc score).
Local Abbreviation suppress' :=
  (suppress score box overlap score_threshold nms_threshold).
Local Abbreviation settled' :=
  (settled score box overlap score_threshold nms_threshold).

Lemma greedy_Forall (P : A -> Prop) (l : list A) :
  Forall P l -> Forall P (greedy' l).
Proof.
  funelim (greedy' l); intros Hall; simp greedy; try (constructor; fail).
  inversion Hall as [|? ? Hb Hrest]; subst.
  constructor; [exact Hb|]. apply H. now apply filter_Forall.
Qed.

Lemma greedy_compatible (l : list A) : compatible' (greedy' l).
Proof.
  funelim (greedy' l); simp greedy; try exact I.
  split; [|exact H].
  apply greedy_Forall, filter_holds.
Qed.

Lemma greedy_fixed (l : list A) : compatible' l -> greedy' l = l.
Proof.
  induction l as [|b rest IH]; intros Hc; simp greedy; [reflexivity|].
  destruct Hc as [Hb Hrest].
  rewrite (filter_fixed _ _ Hb). now rewrite (IH Hrest).
Qed.

Lemma descending_filter (f : A -> bool) (l : list A) :
  descending' l -> descending' (List.filter f l).
Proof.
  induction l as [|b rest IH]; intros Hd; simpl; [exact I|].
  destruct Hd as [Hb Hrest]. destruct (f b).
  - split; [now apply filter_Forall | now apply IH].
  - now apply IH.
Qed.

Lemma greedy_descending (l : list A) : descending' l -> descending' (greedy' l).
Proof.
  funelim (greedy' l); intros Hd; simp greedy; try exact I.
  destruct Hd as [Hb Hrest]. split.
  - now apply greedy_Forall, filter_Forall.
  - now apply H, descending_filter.
Qed.

Lemma insert_desc_Forall (P : A -> Prop) (a : A) (l : list A) :
  P a -> Forall P l -> Forall P (insert_desc' a l).
Proof.
  intros Ha. induction 1 as [|b l Hb Hl IH]; simpl.
  - now repeat constructor.
  - destruct (Float.gtb (score b) (score a)); now repeat constructor.
Qed.

Lemma sort_desc_Forall (P : A -> Prop) (l : list A) :
  Forall P l -> Forall P (sort_desc' l).
Proof.
  induction 1 as [|a l Ha _ IH]; simpl; [constructor|].
  now apply insert_desc_Forall.
Qed.

Lemma insert_desc_descending (a : A) (l : list A) :
  descending' l -> descending' (insert_desc' a l).
Proof.
  induction l as [|b l IH]; intros Hd; simpl.
  - split; [constructor | exact I].
  - destruct Hd as [Hb Hl].
    destruct (Float.gtb (score b) (score a)) eqn:E.
    + split; [|now apply IH].
      apply insert_desc_Forall; [|exact Hb].
      apply gtb_le. apply gtb_lt in E. now apply Qlt_le_weak.
    + split; [|now split].
      constructor; [exact E|].
      eapply List.Forall_impl; [|exact Hb].
      intros c Hc. apply gtb_le. apply gtb_le in Hc, E.
      now apply Qle_trans with (score b).
Qed.

Lemma sort_desc_descending (l : list A) : descending' (sort_desc' l).
Proof.
  induction l as [|a l IH]; simpl; [exact I|].
  now apply insert_desc_descending.
Qed.

Lemma sort_desc_fixed (l : list A) : descending' l -> sort_desc' l = l.
Proof.
  induction l as [|a l IH]; intros Hd; simpl; [reflexivity|].
  destruct Hd as [Ha Hl]. rewrite (IH Hl).
  destruct l as [|b l]; [reflexivity|]. simpl.
  inversion Ha as [|? ? Hb _]; subst. now rewrite Hb.
Qed.

Lemma suppress_Forall (P : A -> Prop) (l : list A) :
  Forall P l -> Forall P (suppress' l).
Proof.
  intros H. unfold suppress.
  now apply greedy_Forall, sort_desc_Forall, filter_Forall.
Qed.

Lemma suppress_settled (l : list A) : settled' (suppress' l).
Proof.
  unfold settled, suppress. split; [|split].
  - apply greedy_Forall, sort_desc_Forall.
    apply (filter_holds (fun c => Float.gtb (score c) score_threshold)).
  - apply greedy_descending, sort_desc_descending.
  - apply greedy_compatible.
Qed.

Lemma settled_fixed (l : list A) : settled' l -> suppress' l = l.
Proof.
  intros (Hs & Hd & Hc). unfold suppress.
  rewrite (filter_fixed (fun c => Float.gtb (score c) score_threshold) _ Hs).
  rewrite (sort_desc_fixed _ Hd). now apply greedy_fixed.
Qed.

Lemma compatible_nth (d : A) (l : list A) (i j : nat) :
  compatible' l -> (i < j)%nat -> (j < length l)%nat ->
  survives' (nth i l d) (nth j l d) = true.
Proof.
  revert i j. induction l as [|b rest IH]; intros i j Hc Hij Hj;
    [simpl in Hj; lia|].
  destruct Hc as [Hb Hrest]. destruct j as [|j]; [lia|].
  simpl in Hj. destruct i as [|i]; simpl.
  - rewrite List.Forall_forall in Hb. apply Hb, nth_In. lia.
  - apply IH; [assumption | lia | lia].
Qed.

End SuppressionFacts.

(** Being settled depends on the scores and boxes only. *)
Lemma Forall_map_eq {A B C} (f : A -> C) (g : B -> C) (P : C -> Prop)
    (l1 : list A) (l2 : list B) :
  map f l1 = map g l2 ->
  Forall (fun a => P (f a)) l1 -> Forall (fun b => P (g b)) l2.
Proof.
  intros E H. apply (proj1 (List.Forall_map g P l2)).
  rewrite <- E. now apply (proj2 (List.Forall_map f P l1)).
Qed.

Lemma settled_transport {A B} (scoreA : A -> Q) (boxA : A -> Rect)
    (scoreB : B -> Q) (boxB : B -> Rect) (overlap : Rect -> Rect -> Q)
    (st nt : Q) (l1 : list A) (l2 : list B) :
  map scoreA l1 = map scoreB l2 -> map boxA l1 = map boxB l2 ->
  settled scoreA boxA overlap st nt l1 -> settled scoreB boxB overlap st nt l2.
Proof.
  intros Es Eb (Hs & Hd & Hc). split; [|split].
  - now apply (Forall_map_eq scoreA scoreB
                 (fun s => Float.gtb s st = true) l1 l2 Es).
  - clear Hs Hc Eb. revert l2 Es Hd.
    induction l1 as [|a l1 IH]; intros [|b l2] Es Hd;
      try discriminate Es; [exact I|].
    simpl in Es. injection Es as Eh Et. destruct Hd as [Ha Hl]. split.
    + rewrite <- Eh.
      now apply (Forall_map_eq scoreA scoreB
                   (fun s => Float.gtb s (scoreA a) = false) l1 l2 Et).
    + now apply IH.
  - clear Hs Hd Es. revert l2 Eb Hc.
    induction l1 as [|a l1 IH]; intros [|b l2] Eb Hc;
      try discriminate Eb; [exact I|].
    simpl in Eb. injection Eb as Eh Et. destruct Hc as [Ha Hl]. split.
    + unfold survives. rewrite <- Eh.
      now apply (Forall_map_eq boxA boxB
                   (fun bx => negb (Float.gtb (overlap bx (boxA a)) nt) = true)
                   l1 l2 Et).
    + now apply IH.
Qed.

(** *** The indices returned by [NMSBoxes] *)

Lemma combine_seq_lookup {A} (L : list A) (k : nat) :
  Forall (fun p => (k <= fst p)%nat /\ nth_error L (fst p - k) = Some (snd p))
         (combine (seq k (length L)) L).
Proof.
  revert k. induction L as [|x L IH]; intros k; simpl; constructor.
  - simpl. split; [lia|]. now rewrite Nat.sub_diag.
  - eapply List.Forall_impl; [|apply (IH (S k))].
    intros [i y] [Hle Hnth]. simpl in *. split; [lia|].
    replace (i - k)%nat with (S (i - S k)) by lia. exact Hnth.
Qed.

Lemma enumerate_lookup {A} (L : list A) :
  Forall (fun p => nth_error L (fst p) = Some (snd p)) (enumerate L).
Proof.
  eapply List.Forall_impl; [|apply (combine_seq_lookup L 0)].
  intros [i y] [_ H]. simpl in *. now rewrite Nat.sub_0_r in H.
Qed.

Lemma map_snd_combine_seq {A} (L : list A) (k : nat) :
  map snd (combine (seq k (length L)) L) = L
  /\ map fst (combine (seq k (length L)) L) = seq k (length L).
Proof.
  revert k. induction L as [|x L IH]; intros k; simpl; [now split|].
  destruct (IH (S k)) as [-> ->]. now split.
Qed.

Lemma nth_error_combine {A B} (l1 : list A) (l2 : list B) (i : nat) a b :
  nth_error (combine l1 l2) i = Some (a, b) ->
  nth_error l1 i = Some a /\ nth_error l2 i = Some b.
Proof.
  revert l2 i. induction l1 as [|x l1 IH]; intros [|y l2] [|i] H;
    simpl in *; try discriminate.
  - injection H as -> ->. now split.
  - now apply IH.
Qed.

Lemma combine_map_pair {A B C} (f : A -> B) (g : A -> C) (l : list A) :
  combine (map f l) (map g l) = map (fun a => (f a, g a)) l.
Proof. induction l as [|a l IH]; simpl; [reflexivity | now rewrite IH]. Qed.

Lemma rect_inter_sym (a b : Rect) : rect_inter a b = rect_inter b a.
Proof.
  destruct a as [[[ax ay] aw] ah], b as [[[bx by_] bw] bh]. unfold rect_inter.
  now rewrite (Z.max_comm ax bx), (Z.max_comm ay by_),
    (Z.min_comm (ax + aw) (bx + bw)), (Z.min_comm (ay + ah) (by_ + bh)).
Qed.

Lemma iou_sym (a b : Rect) : iou a b = iou b a.
Proof.
  unfold iou.
  now rewrite (rect_inter_sym a b), (Z.add_comm (rect_area a) (rect_area b)).
Qed.

(** The candidates [NMSBoxes] works on, and what it keeps of them. *)
Lemma nms_kept (bboxes : list Rect) (scores : list Q) (st nt : Q) :
  let score := fun c : nat * (Rect * Q) => snd (snd c) in
  let box := fun c : nat * (Rect * Q) => fst (snd c) in
  let out := suppress score box iou st nt (enumerate (combine bboxes scores)) in
  NMSBoxes bboxes scores st nt = map fst out
  /\ map (fun i => nth i bboxes (0, 0, 0, 0)%Z) (map fst out) = map box out
  /\ map (fun i => nth i scores 0%Q) (map fst out) = map score out
  /\ settled score box iou st nt out.
Proof.
  intros score box out.
  assert (Hlook : Forall (fun p => nth_error (combine bboxes scores) (fst p)
                                   = Some (snd p)) out)
    by apply suppress_Forall, enumerate_lookup.
  split; [reflexivity|]. split; [|split].
  - rewrite map_map. apply map_ext_Forall.
    eapply List.Forall_impl; [|exact Hlook].
    intros [i [b s]] H. simpl in *.
    apply nth_error_combine in H. destruct H as [H _].
    now apply nth_error_nth.
  - rewrite map_map. apply map_ext_Forall.
    eapply List.Forall_impl; [|exact Hlook].
    intros [i [b s]] H. simpl in *.
    apply nth_error_combine in H. destruct H as [_ H].
    now apply nth_error_nth.
  - apply suppress_settled.
Qed.

(** C7: running the suppression again on the boxes and confidences it
    kept keeps every one of them, in the same order, and no two kept
    boxes overlap by more than the threshold. *)
Theorem nms_idempotent (bboxes : list Rect) (scores : list Q) (st nt : Q) :
  let kept := NMSBoxes bboxes scores st nt in
  let kept_boxes := map (fun i => nth i bboxes (0, 0, 0, 0)%Z) kept in
  let kept_scores := map (fun i => nth i scores 0%Q) kept in
  NMSBoxes kept_boxes kept_scores st nt = seq 0 (length kept)
  /\ length kept_boxes = length kept
  /\ forall i j, (i < length kept)%nat -> (j < length kept)%nat -> i <> j ->
       (iou (nth i kept_boxes (0, 0, 0, 0)%Z) (nth j kept_boxes (0, 0, 0, 0)%Z)
        <= nt)%Q.
Proof.
  intros kept kept_boxes kept_scores.
  destruct (nms_kept bboxes scores st nt) as (Hk & Hb & Hs & Hset).
  set (score := fun c : nat * (Rect * Q) => snd (snd c)) in *.
  set (box := fun c : nat * (Rect * Q) => fst (snd c)) in *.
  set (out := suppress score box iou st nt (enumerate (combine bboxes scores)))
    in *.
  assert (Hkb : kept_boxes = map box out)
    by (unfold kept_boxes, kept; now rewrite Hk, Hb).
  assert (Hks : kept_scores = map score out)
    by (unfold kept_scores, kept; now rewrite Hk, Hs).
  assert (Hlen : length kept = length out)
    by (unfold kept; now rewrite Hk, length_map).
  split; [|split].
  - unfold NMSBoxes. fold score box. rewrite Hkb, Hks, combine_map_pair.
    set (M := map (fun a => (box a, score a)) out).
    assert (HM : M = map snd out).
    { unfold M. apply map_ext. now intros [i [b s]]. }
    destruct (map_snd_combine_seq M 0) as [Hsnd Hfst]. fold (enumerate M) in *.
    rewrite (settled_fixed score box iou st nt (enumerate M)).
    + rewrite Hfst, Hlen. unfold M. now rewrite length_map.
    + apply (settled_transport score box score box iou st nt out);
        [| |exact Hset].
      * change score with (fun c : nat * (Rect * Q) => snd (snd c)).
        rewrite <- !(map_map snd snd). now rewrite Hsnd, HM.
      * change box with (fun c : nat * (Rect * Q) => fst (snd c)).
        rewrite <- !(map_map snd fst). now rewrite Hsnd, HM.
  - rewrite Hkb, Hlen. apply length_map.
  - intros i j Hi Hj Hne. rewrite Hkb.
    pose (d := (0%nat, ((0, 0, 0, 0)%Z, 0%Q))).
    change (0, 0, 0, 0)%Z with (box d). rewrite !map_nth.
    destruct Hset as (_ & _ & Hc).
    assert (Hpair : forall a b, (a < b)%nat -> (b < length out)%nat ->
              (iou (box (nth b out d)) (box (nth a out d)) <= nt)%Q).
    { intros a b Hab Hb'.
      pose proof (compatible_nth box iou nt d out a b Hc Hab Hb') as H.
      unfold survives in H. apply negb_true_iff in H. now apply gtb_le. }
    destruct (Nat.lt_total i j) as [Hlt|[Heq|Hgt]]; [|contradiction|].
    + rewrite iou_sym. apply Hpair; lia.
    + apply Hpair; lia.
Qed.

Lemma nms_idempotent_witness :
  let bboxes := [(0, 0, 10, 10); (1, 1, 10, 10); (50, 50, 5, 5); (0, 0, 10, 10)]%Z in
  let scores := [6 # 10; 9 # 10; 7 # 10; 3 # 10] in
  NMSBoxes bboxes scores (5 # 10) (4 # 10) = [1; 2]%nat
  /\ NMSBoxes [(1, 1, 10, 10); (50, 50, 5, 5)]%Z [9 # 10; 7 # 10] (5 # 10) (4 # 10)
     = [0; 1]%nat
  /\ (iou (1, 1, 10, 10)%Z (50, 50, 5, 5)%Z <= 4 # 10)%Q.
Proof.
  intros bboxes scores.
  destruct (nms_idempotent bboxes scores (5 # 10) (4 # 10)) as (Hagain & _ & Hpair).
  split; [vm_compute; reflexivity|]. split.
  - exact Hagain.
  - apply (Hpair 0%nat 1%nat); [vm_compute; lia | vm_compute; lia | discriminate].
Defined.

(** ** Confidence values *)

Lemma loop_append_Forall {X} (P : Detection -> Prop)
    (step : X -> Outcome (option Detection)) (l : list X)
    (acc : list Detection) :
  (forall x det, step x = Return (Some det) -> P det) ->
  Forall P acc -> Forall P (fst (loop_append step l acc)).
Proof.
  intros Hstep. revert acc. induction l as [|x l IH]; intros acc Hacc; simpl;
    [exact Hacc|].
  destruct (step x) as [[det|]|e] eqn:E; simpl.
  - apply IH. apply Forall_app. split; [exact Hacc|].
    constructor; [now apply (Hstep x) | constructor].
  - now apply IH.
  - exact Hacc.
Qed.

Lemma obind_Return {A B} (o : Outcome A) (k : A -> Outcome B) (b : B) :
  obind o k = Return b -> exists a, o = Return a /\ k a = Return b.
Proof. destruct o as [a|e]; simpl; [eauto | discriminate]. Qed.

Lemma Qdiv_gt (lo x k y : Q) :
  (0 < k)%Q -> (lo * k == y)%Q -> (y < x)%Q -> (lo < x / k)%Q.
Proof.
  intros Hk E H. apply Qlt_shift_div_l; [exact Hk|]. now rewrite E.
Qed.

Lemma hog_step_confidence (weights : list (list Q)) (ir : nat * Rect)
    (det : Detection) :
  hog_step weights ir = Return (Some det) ->
  category det = "human" /\ (3 # 10 < confidence det <= 1)%Q.
Proof.
  unfold hog_step. destruct ir as [i r]. intros H.
  apply obind_Return in H. destruct H as (c & _ & H).
  destruct (Float.gtb c (3 # 10)) eqn:E; [|discriminate].
  injection H as <-. simpl. apply gtb_lt in E.
  split; [reflexivity|]. split; [|apply fmin_le_r].
  apply fmin_gt; [exact E | reflexivity].
Qed.

Lemma vehicle_step_confidence (cv : CV2) (image : Image) (c : Contour)
    (det : Detection) :
  vehicle_step cv image c = Return (Some det) ->
  category det = "vehicle" /\ (1 # 10 < confidence det <= 7 # 10)%Q.
Proof.
  unfold vehicle_step.
  destruct (Float.gtb (contourArea cv c) 5000) eqn:Ea; [|discriminate].
  destruct (boundingRect cv c) as [[[x y] w] h]. intros H.
  apply obind_Return in H. destruct H as (ratio & _ & H).
  destruct (_ && _ && _ && _); [|discriminate].
  apply obind_Return in H. destruct H as ([|] & _ & H); [|discriminate].
  injection H as <-. simpl. apply gtb_lt in Ea.
  split; [reflexivity|]. split; [|apply fmin_le_l].
  apply fmin_gt; [reflexivity|].
  now apply (Qdiv_gt (1 # 10) _ 50000 5000).
Qed.

Lemma animal_step_confidence (cv : CV2) (gray : Gray) (c : Contour)
    (det : Detection) :
  animal_step cv gray c = Return (Some det) ->
  category det = "animal" /\ (12 # 100 < confidence det <= 6 # 10)%Q.
Proof.
  unfold animal_step.
  destruct (Float.ltb 2000 (contourArea cv c)) eqn:Ea; [|discriminate].
  destruct (Float.ltb (contourArea cv c) 50000); [|discriminate]. simpl andb.
  cbv iota.
  destruct (boundingRect cv c) as [[[x y] w] h]. intros H.
  apply obind_Return in H. destruct H as (ratio & _ & H).
  destruct (_ && _); [|discriminate].
  destruct (Float.gtb (np_var (crop gray x y w h)) 100) eqn:Ev;
    [|discriminate].
  injection H as <-. simpl. apply ltb_lt in Ea. apply gtb_lt in Ev.
  split; [reflexivity|]. split; [|apply fmin_le_l].
  apply fmin_gt; [reflexivity|].
  apply Qle_lt_trans with ((1 # 10) + (2 # 100))%Q; [discriminate|].
  apply Qplus_lt_le_compat.
  + now apply (Qdiv_gt (1 # 10) _ 1000 100).
  + apply Qlt_le_weak. now apply (Qdiv_gt (2 # 100) _ 100000 2000).
Qed.

Lemma machinery_confidence (lines : option (list (Z * Z * Z * Z))) :
  Forall (fun det => category det = "machinery"
                     /\ (2 # 10 < confidence det <= 7 # 10)%Q)
         (machinery_of_lines lines).
Proof.
  unfold machinery_of_lines. destruct lines as [segments|]; [|constructor].
  destruct (Nat.ltb_spec 20 (length segments)) as [Hlen|]; [|constructor].
  destruct (10 <? length (map _ segments))%nat; [|constructor].
  destruct (map fst _) as [|x0 xs]; [constructor|].
  destruct (map snd _) as [|y0 ys]; [constructor|].
  destruct (_ && _); [|constructor].
  constructor; [|constructor]. simpl.
  split; [reflexivity|]. split; [|apply fmin_le_l].
  apply fmin_gt; [reflexivity|].
  apply (Qdiv_gt (2 # 10) _ 100 (inject_Z 20)); [reflexivity | reflexivity|].
  rewrite <- Zlt_Qlt. lia.
Qed.

Lemma guarded_loop_Forall {X} (P : Detection -> Prop) (label : string)
    (step : X -> Outcome (option Detection)) (o : Outcome (list X))
    (detections : list Detection) :
  (forall x det, step x = Return (Some det) -> P det) ->
  outcome (guarded label
             match o with
             | Raise e => ([], Some e)
             | Return l => loop_append step l []
             end) = Return detections ->
  Forall P detections.
Proof.
  intros Hstep. rewrite outcome_guarded. intros [= <-].
  destruct o as [l|e]; [|constructor].
  apply loop_append_Forall; [exact Hstep | constructor].
Qed.


Lemma for_each_invariant {X S} (I : S -> Prop) (step : X -> S -> Outcome S)
    (l : list X) (acc r : S) :
  (forall x a a', In x l -> I a -> step x a = Return a' -> I a') ->
  I acc -> for_each step l acc = Return r -> I r.
Proof.
  revert acc. induction l as [|x l IH]; intros acc Hstep Hacc H; simpl in H.
  - now injection H as <-.
  - apply obind_Return in H. destruct H as (a & Ha & H).
    apply (IH a); [| |exact H].
    + intros y b b' Hy. apply Hstep. now right.
    + apply (Hstep x acc a); [now left | exact Hacc | exact Ha].
Qed.

Lemma parse_detection_capped (d : Detector) (width height : Z)
    (detection : list Q) (acc acc' : Candidates) :
  Forall (fun s => (s <= 1)%Q) (skipn 5 detection) ->
  Forall (fun s => (s <= 1)%Q) (snd (fst acc)) ->
  parse_detection d width height detection acc = Return acc' ->
  Forall (fun s => (s <= 1)%Q) (snd (fst acc')).
Proof.
  intros Hrow Hacc. unfold parse_detection.
  destruct acc as [[boxes confidences] class_ids]. intros H.
  apply obind_Return in H. destruct H as (class_id & _ & H).
  destruct (Float.gtb _ _); injection H as <-; [|exact Hacc].
  simpl in *. apply Forall_app. split; [exact Hacc|].
  constructor; [|constructor].
  destruct (nth_in_or_default class_id (skipn 5 detection) 0%Q) as [Hin| ->].
  - rewrite List.Forall_forall in Hrow. now apply Hrow.
  - discriminate.
Qed.

Lemma parse_outputs_capped (d : Detector) (width height : Z)
    (outputs : list (list (list Q))) (c : Candidates) :
  Forall (fun s => (s <= 1)%Q) (class_scores outputs) ->
  parse_outputs d width height outputs = Return c ->
  Forall (fun s => (s <= 1)%Q) (snd (fst c)).
Proof.
  intros Hcap. unfold parse_outputs.
  apply (for_each_invariant
           (fun acc : Candidates => Forall (fun s => (s <= 1)%Q) (snd (fst acc))));
    [|constructor].
  intros output a a' Hout Ha.
  apply (for_each_invariant
           (fun acc : Candidates => Forall (fun s => (s <= 1)%Q) (snd (fst acc))));
    [|exact Ha].
  intros row b b' Hrow Hb. apply parse_detection_capped; [|exact Hb].
  apply List.Forall_forall. intros s Hs.
  rewrite List.Forall_forall in Hcap. apply Hcap.
  unfold class_scores. apply in_flat_map. exists output. split; [exact Hout|].
  apply in_flat_map. now exists row.
Qed.

(** Every index [NMSBoxes] keeps has a score above the score threshold. *)
Lemma nms_scores_above (bboxes : list Rect) (scores : list Q) (st nt : Q) :
  Forall (fun i => (st < nth i scores 0)%Q) (NMSBoxes bboxes scores st nt).
Proof.
  destruct (nms_kept bboxes scores st nt) as (-> & _ & Hs & Hset & _).
  apply (proj1 (List.Forall_map (fun i => nth i scores 0%Q)
                  (fun s => (st < s)%Q) _)).
  rewrite Hs. apply (proj2 (List.Forall_map _ _ _)).
  eapply List.Forall_impl; [|exact Hset].
  intros c Hc. now apply gtb_lt.
Qed.

Lemma yolo_inversion (cv : CV2) (self : Detector) (image : Image)
    (detections : list Detection) :
  outcome (_detect_with_yolo cv self image) = Return detections ->
  (net self = None /\ detections = [])
  \/ exists n outputs boxes confidences class_ids,
       net self = Some n
       /\ forward cv n (output_layers self) image = Return outputs
       /\ parse_outputs self (snd (shape2 image)) (fst (shape2 image)) outputs
          = Return (boxes, confidences, class_ids)
       /\ detections
          = map (yolo_detection self (boxes, confidences, class_ids))
                (NMSBoxes boxes confidences (confidence_threshold self)
                   (nms_threshold self)).
Proof.
  unfold _detect_with_yolo. rewrite outcome_bind. cbn [emit outcome snd].
  destruct (net self) as [n|]; [|intros [= <-]; now left].
  unfold shape2 at 1. intros H. right.
  apply outcome_bind_Return in H. destruct H as (outputs & Hf & H).
  apply outcome_bind_Return in H. destruct H as ([[boxes confs] ids] & Hp & H).
  injection H as <-. now exists n, outputs, boxes, confs, ids.
Qed.

(** [np.argmax] returns a position of the list that holds a maximum. *)
Lemma argmax_from_spec (l pre : list Q) (best_i : nat) (best : Q) :
  (best_i < length pre)%nat -> nth best_i pre 0%Q = best ->
  Forall (fun s => (s <= best)%Q) pre ->
  (argmax_from best_i best (length pre) l < length (pre ++ l))%nat
  /\ Forall (fun s => (s <= nth (argmax_from best_i best (length pre) l)
                                (pre ++ l) 0)%Q) (pre ++ l).
Proof.
  revert pre best_i best.
  induction l as [|v l IH]; intros pre best_i best Hi Hnth Hall; simpl.
  - rewrite app_nil_r, Hnth. split; [exact Hi | exact Hall].
  - replace (pre ++ v :: l) with ((pre ++ [v]) ++ l)
      by (now rewrite <- app_assoc).
    replace (S (length pre)) with (length (pre ++ [v]))
      by (rewrite length_app; simpl; lia).
    destruct (Float.gtb v best) eqn:E.
    + replace (length pre) with (length (pre ++ [v]) - 1)%nat at 1 3
        by (rewrite length_app; simpl; lia).
      apply gtb_lt in E.
      replace (length (pre ++ [v]) - 1)%nat with (length pre)
        by (rewrite length_app; simpl; lia).
      apply IH.
      * rewrite length_app. simpl. lia.
      * rewrite app_nth2 by lia. now rewrite Nat.sub_diag.
      * apply Forall_app. split; [|constructor; [apply Qle_refl | constructor]].
        eapply List.Forall_impl; [|exact Hall].
        intros s Hs. apply Qle_trans with best; [exact Hs|].
        now apply Qlt_le_weak.
    + apply gtb_le in E. apply IH.
      * rewrite length_app. simpl. lia.
      * now rewrite app_nth1 by lia.
      * apply Forall_app. split; [exact Hall|]. now repeat constructor.
Qed.

Lemma np_argmax_spec (scores : list Q) (k : nat) :
  np_argmax scores = Return k ->
  In (nth k scores 0%Q) scores
  /\ Forall (fun s => (s <= nth k scores 0)%Q) scores.
Proof.
  destruct scores as [|v l]; [discriminate|]. simpl np_argmax. intros [= <-].
  destruct (argmax_from_spec l [v] 0 v) as [Hlt Hmax].
  - simpl. lia.
  - reflexivity.
  - constructor; [apply Qle_refl | constructor].
  - simpl length in Hlt, Hmax. simpl app in Hlt, Hmax.
    split; [now apply nth_In | exact Hmax].
Qed.

(** Every confidence gathered from the network outputs is the highest
    class score of one of their rows. *)
Lemma parse_outputs_peaks (d : Detector) (width height : Z)
    (outputs : list (list (list Q))) (c : Candidates) :
  parse_outputs d width height outputs = Return c ->
  Forall (row_peak outputs) (snd (fst c)).
Proof.
  unfold parse_outputs.
  apply (for_each_invariant
           (fun acc : Candidates => Forall (row_peak outputs) (snd (fst acc))));
    [|constructor].
  intros output a a' Hout Ha.
  apply (for_each_invariant
           (fun acc : Candidates => Forall (row_peak outputs) (snd (fst acc))));
    [|exact Ha].
  intros row b b' Hrow Hb. unfold parse_detection.
  destruct b as [[boxes confidences] class_ids]. intros H.
  apply obind_Return in H. destruct H as (class_id & Harg & H).
  destruct (Float.gtb _ _); injection H as <-; [|exact Hb].
  simpl in *. apply Forall_app. split; [exact Hb|].
  constructor; [|constructor].
  destruct (np_argmax_spec _ _ Harg) as [Hin Hmax].
  now exists output, row.
Qed.

(** Every index [NMSBoxes] keeps is a position of the scores. *)
Lemma nms_scores_member (bboxes : list Rect) (scores : list Q) (st nt : Q) :
  Forall (fun i => In (nth i scores 0%Q) scores)
         (NMSBoxes bboxes scores st nt).
Proof.
  unfold NMSBoxes.
  set (score := fun c : nat * (Rect * Q) => snd (snd c)).
  set (box := fun c : nat * (Rect * Q) => fst (snd c)).
  assert (Hlook : Forall (fun p => nth_error (combine bboxes scores) (fst p)
                                   = Some (snd p))
                         (suppress score box iou st nt
                            (enumerate (combine bboxes scores))))
    by apply suppress_Forall, enumerate_lookup.
  apply List.Forall_forall. intros i Hi.
  apply in_map_iff in Hi. destruct Hi as (p & <- & Hp).
  rewrite List.Forall_forall in Hlook. specialize (Hlook p Hp).
  revert Hlook. destruct p as [i [b s]]. intros H. simpl in *.
  apply nth_error_combine in H. destruct H as [_ H].
  rewrite (nth_error_nth _ _ _ H). now apply nth_error_In with i.
Qed.

(** C5: the confidences of the four heuristic detectors lie in [0, 1]
    (humans in (0.3, 1], vehicles in (0.1, 0.7], animals in (0.12, 0.6],
    machinery in (0.2, 0.7]). The confidence of a primary detection is
    the highest class score of a row of the network output and exceeds
    the confidence threshold; the class scores of a YOLO output layer
    being at most 1, it lies in [0, 1] as well. *)
Theorem confidence_bounds (cv : CV2) (self : Detector) (image : Image)
    (gray : Gray) (hsv : HSVImage) :
  (forall detections,
      outcome (_detect_humans_hog cv image gray) = Return detections ->
      Forall (fun det => (3 # 10 < confidence det <= 1)%Q) detections)
  /\ (forall detections,
        outcome (_detect_vehicles_contours cv image gray) = Return detections ->
        Forall (fun det => (1 # 10 < confidence det <= 7 # 10)%Q) detections)
  /\ (forall detections,
        outcome (_detect_animals_texture cv image gray hsv) = Return detections ->
        Forall (fun det => (12 # 100 < confidence det <= 6 # 10)%Q) detections)
  /\ (forall detections,
        outcome (_detect_machinery_edges cv image gray) = Return detections ->
        Forall (fun det => (2 # 10 < confidence det <= 7 # 10)%Q) detections)
  /\ (forall detections,
        outcome (_detect_with_opencv_features cv image) = Return detections ->
        Forall (fun det => (0 <= confidence det <= 1)%Q) detections)
  /\ (forall detections,
        outcome (_detect_with_yolo cv self image) = Return detections ->
        Forall (fun det => (confidence_threshold self < confidence det)%Q)
               detections
        /\ forall n outputs,
             net self = Some n ->
             forward cv n (output_layers self) image = Return outputs ->
             Forall (fun det =>
                       exists output row,
                         In output outputs /\ In row output
                         /\ In (confidence det) (skipn 5 row)
                         /\ Forall (fun s => (s <= confidence det)%Q)
                                   (skipn 5 row)) detections
             /\ (Forall (fun s => (s <= 1)%Q) (class_scores outputs) ->
                 Forall (fun det => (confidence det <= 1)%Q) detections)
             /\ ((0 <= confidence_threshold self)%Q ->
                 Forall (fun s => (s <= 1)%Q) (class_scores outputs) ->
                 Forall (fun det => (0 <= confidence det <= 1)%Q) detections)).
Proof.
  assert (Hhog : forall g detections,
            outcome (_detect_humans_hog cv image g) = Return detections ->
            Forall (fun det => (3 # 10 < confidence det <= 1)%Q) detections).
  { intros g detections. unfold _detect_humans_hog.
    rewrite outcome_bind. cbn [emit outcome snd].
    destruct (detectMultiScale cv g) as [[rects weights]|e].
    - apply (guarded_loop_Forall _ _ (hog_step weights) (Return (enumerate rects))).
      intros x det H. now apply (hog_step_confidence weights x).
    - intros [= <-]. constructor. }
  assert (Hveh : forall g detections,
            outcome (_detect_vehicles_contours cv image g) = Return detections ->
            Forall (fun det => (1 # 10 < confidence det <= 7 # 10)%Q) detections).
  { intros g detections. unfold _detect_vehicles_contours.
    rewrite outcome_bind. cbn [emit outcome snd].
    apply guarded_loop_Forall.
    intros x det H. now apply (vehicle_step_confidence cv image x). }
  assert (Hani : forall g h detections,
            outcome (_detect_animals_texture cv image g h) = Return detections ->
            Forall (fun det => (12 # 100 < confidence det <= 6 # 10)%Q) detections).
  { intros g h detections. unfold _detect_animals_texture.
    rewrite outcome_bind. cbn [emit outcome snd]. cbv zeta.
    apply guarded_loop_Forall.
    intros x det H. now apply (animal_step_confidence cv g x). }
  assert (Hmac : forall g detections,
            outcome (_detect_machinery_edges cv image g) = Return detections ->
            Forall (fun det => (2 # 10 < confidence det <= 7 # 10)%Q) detections).
  { intros g detections. unfold _detect_machinery_edges.
    rewrite outcome_bind. cbn [emit outcome snd].
    rewrite outcome_guarded. intros [= <-].
    destruct (obind _ _) as [lines|e]; [|constructor]. simpl.
    eapply List.Forall_impl; [|apply machinery_confidence].
    now intros det [_ H]. }
  split; [apply Hhog|]. split; [apply Hveh|]. split; [apply Hani|].
  split; [apply Hmac|]. split.
  - intros detections. unfold _detect_with_opencv_features. intros H.
    apply outcome_bind_Return in H. destruct H as (_ & _ & H).
    apply outcome_bind_Return in H. destruct H as (g & _ & H).
    apply outcome_bind_Return in H. destruct H as (h & _ & H).
    apply outcome_bind_Return in H. destruct H as (l1 & H1 & H).
    apply outcome_bind_Return in H. destruct H as (l2 & H2 & H).
    apply outcome_bind_Return in H. destruct H as (l3 & H3 & H).
    apply outcome_bind_Return in H. destruct H as (l4 & H4 & H).
    injection H as <-.
    apply Hhog in H1. apply Hveh in H2. apply Hani in H3. apply Hmac in H4.
    repeat (apply Forall_app; split).
    + eapply List.Forall_impl; [|exact H1]. intros det [Hlo Hhi].
      split; [|exact Hhi]. apply Qlt_le_weak.
      now apply Qlt_trans with (3 # 10)%Q.
    + eapply List.Forall_impl; [|exact H2]. intros det [Hlo Hhi]. split.
      * apply Qlt_le_weak. now apply Qlt_trans with (1 # 10)%Q.
      * now apply Qle_trans with (7 # 10)%Q.
    + eapply List.Forall_impl; [|exact H3]. intros det [Hlo Hhi]. split.
      * apply Qlt_le_weak. now apply Qlt_trans with (12 # 100)%Q.
      * now apply Qle_trans with (6 # 10)%Q.
    + eapply List.Forall_impl; [|exact H4]. intros det [Hlo Hhi]. split.
      * apply Qlt_le_weak. now apply Qlt_trans with (2 # 10)%Q.
      * now apply Qle_trans with (7 # 10)%Q.
  - intros detections H.
    destruct (yolo_inversion cv self image detections H)
      as [[Hnet ->]|(n & outputs & boxes & confs & ids & Hnet & Hf & Hp & ->)].
    + split; [constructor|]. intros n outputs Hn. congruence.
    + assert (Habove : Forall (fun det =>
                          (confidence_threshold self < confidence det)%Q)
                (map (yolo_detection self (boxes, confs, ids))
                     (NMSBoxes boxes confs (confidence_threshold self)
                        (nms_threshold self)))).
      { apply List.Forall_forall. intros det Hin.
        apply in_map_iff in Hin. destruct Hin as (i & <- & Hi). simpl.
        pose proof (nms_scores_above boxes confs (confidence_threshold self)
                      (nms_threshold self)) as Hab.
        rewrite List.Forall_forall in Hab. now apply Hab. }
      split; [exact Habove|].
      intros n' outputs' Hnet' Hf'.
      assert (n' = n) by congruence. subst n'.
      assert (outputs' = outputs) by congruence. subst outputs'.
      pose proof (parse_outputs_peaks _ _ _ _ _ Hp) as Hpeaks.
      simpl in Hpeaks. rewrite List.Forall_forall in Hpeaks.
      assert (Hpeak : Forall (fun det => row_peak outputs (confidence det))
                (map (yolo_detection self (boxes, confs, ids))
                     (NMSBoxes boxes confs (confidence_threshold self)
                        (nms_threshold self)))).
      { apply List.Forall_forall. intros det Hin.
        apply in_map_iff in Hin. destruct Hin as (i & <- & Hi). simpl.
        pose proof (nms_scores_member boxes confs (confidence_threshold self)
                      (nms_threshold self)) as Hmem.
        rewrite List.Forall_forall in Hmem. apply Hpeaks. now apply Hmem. }
      assert (Hcapped : Forall (fun s => (s <= 1)%Q) (class_scores outputs) ->
                Forall (fun det => (confidence det <= 1)%Q)
                  (map (yolo_detection self (boxes, confs, ids))
                       (NMSBoxes boxes confs (confidence_threshold self)
                          (nms_threshold self)))).
      { intros Hcap. eapply List.Forall_impl; [|exact Hpeak].
        intros det (output & row & Hout & Hrow & Hin & _).
        rewrite List.Forall_forall in Hcap. apply Hcap.
        unfold class_scores. apply in_flat_map. exists output.
        split; [exact Hout|]. apply in_flat_map. now exists row. }
      split; [exact Hpeak|]. split; [exact Hcapped|].
      intros Hthr Hcap. specialize (Hcapped Hcap).
      rewrite List.Forall_forall in Habove, Hcapped.
      apply List.Forall_forall. intros det Hin. split.
      * apply Qlt_le_weak. apply Qle_lt_trans with (confidence_threshold self);
          [exact Hthr | now apply Habove].
      * now apply Hcapped.
Qed.

Lemma confidence_bounds_witness :
  let frame := Fixture.solid 200 40 40 in
  let outputs :=
    [[Fixture.anchor (1 # 2) (1 # 2) (1 # 5) (1 # 5) [0; 6 # 10; 9 # 10]%Q]] in
  let cv := Fixture.stub frame outputs ([(1, 1, 2, 2)%Z], [[8 # 10]]) [] None in
  exists det,
    outcome (_detect_with_yolo cv Fixture.loaded frame) = Return [det]
    /\ (0 <= confidence det <= 1)%Q
    /\ (5 # 10 < confidence det)%Q.
Proof.
  intros frame outputs cv.
  destruct (confidence_bounds cv Fixture.loaded frame [] [])
    as (_ & _ & _ & _ & _ & Hyolo).
  assert (Hrun : exists det,
             outcome (_detect_with_yolo cv Fixture.loaded frame) = Return [det])
    by (vm_compute; eexists; reflexivity).
  destruct Hrun as [det Hrun]. exists det. split; [exact Hrun|].
  destruct (Hyolo [det] Hrun) as [Hlow Hback].
  destruct (Hback (DarknetNet tiny_config tiny_weights) outputs
              eq_refl eq_refl) as (_ & _ & Hunit).
  split.
  - assert (Hs : Forall (fun s => (s <= 1)%Q) (class_scores outputs))
      by (vm_compute; repeat constructor; discriminate).
    assert (Ht : (0 <= confidence_threshold Fixture.loaded)%Q)
      by (vm_compute; discriminate).
    specialize (Hunit Ht Hs). inversion Hunit; subst; assumption.
  - inversion Hlow; subst; assumption.
Defined.

(** * Further properties of the detector *)

(** ** The saturation test *)

Lemma count_above_le (level : Z) (a : Gray) :
  (count_above level a <= pixel_count a)%nat.
Proof. unfold count_above, pixel_count. apply List.filter_length_le. Qed.

Lemma ratio_above_three_tenths (c n : nat) :
  (c <= n)%nat ->
  Float.gtb (inject_Z (Z.of_nat c) / inject_Z (Z.of_nat n))%Q (3 # 10) = true
  <-> (3 * n < 10 * c)%nat.
Proof.
  intros Hle. rewrite gtb_lt. destruct n as [|n].
  - assert (c = 0%nat) by lia. subst c. simpl. split; [discriminate | lia].
  - change (inject_Z (Z.of_nat (S n))) with (inject_Z (Z.pos (Pos.of_succ_nat n))).
    rewrite <- Qmake_Qdiv. unfold Qlt. simpl Qnum. simpl Qden. lia.
Qed.

(** [_has_artificial_colors] never raises. It answers [False] on an empty
    region, and otherwise [True] exactly when more than three tenths of
    the pixels of the region have a saturation above 100. *)
Theorem artificial_colors_threshold (cv : CV2) (roi : Image) :
  exists answer,
    _has_artificial_colors cv roi = Return answer
    /\ (pixel_count roi = 0%nat -> answer = false)
    /\ (answer = true
        <-> (3 * pixel_count roi
             < 10 * count_above 100
                      (saturation_channel (map (map (bgr2hsv cv)) roi)))%nat).
Proof.
  exists (high_saturation cv roi). split; [apply has_artificial_colors_spec|].
  assert (Hiff : high_saturation cv roi = true
                 <-> (3 * pixel_count roi
                      < 10 * count_above 100
                               (saturation_channel (map (map (bgr2hsv cv)) roi)))%nat).
  { unfold high_saturation. apply ratio_above_three_tenths.
    etransitivity; [apply count_above_le|].
    unfold saturation_channel. now rewrite !pixel_count_map. }
  split; [|exact Hiff].
  intros Hz. destruct (high_saturation cv roi); [|reflexivity].
  pose proof (proj1 Hiff eq_refl) as H.
  pose proof (count_above_le 100
                (saturation_channel (map (map (bgr2hsv cv)) roi))) as Hle.
  unfold saturation_channel in Hle at 2. rewrite !pixel_count_map in Hle. lia.
Qed.

(** ** Failures inside the heuristic detectors *)

Lemma trace_guarded_ok label detections :
  guarded label (detections, None) = ([], Return detections).
Proof. reflexivity. Qed.

(** None of the four heuristic detectors lets an exception escape; the
    combined detector fails only on an empty image, and otherwise returns
    what the four detectors found, humans first, then vehicles, animals
    and machinery. *)
Theorem heuristics_never_raise (cv : CV2) (image : Image) :
  (forall gray, exists detections,
      outcome (_detect_humans_hog cv image gray) = Return detections)
  /\ (forall gray, exists detections,
        outcome (_detect_vehicles_contours cv image gray) = Return detections)
  /\ (forall gray hsv, exists detections,
        outcome (_detect_animals_texture cv image gray hsv) = Return detections)
  /\ (forall gray, exists detections,
        outcome (_detect_machinery_edges cv image gray) = Return detections)
  /\ (pixel_count image = 0%nat ->
      exists msg,
        outcome (_detect_with_opencv_features cv image) = Raise (cv2_error msg))
  /\ (pixel_count image <> 0%nat ->
      let gray := map (map (bgr2gray cv)) image in
      let hsv := map (map (bgr2hsv cv)) image in
      exists people cars beasts machines,
        outcome (_detect_humans_hog cv image gray) = Return people
        /\ outcome (_detect_vehicles_contours cv image gray) = Return cars
        /\ outcome (_detect_animals_texture cv image gray hsv) = Return beasts
        /\ outcome (_detect_machinery_edges cv image gray) = Return machines
        /\ outcome (_detect_with_opencv_features cv image)
           = Return (people ++ cars ++ beasts ++ machines)).
Proof.
  assert (H1 : forall gray, exists detections,
             outcome (_detect_humans_hog cv image gray) = Return detections).
  { intros gray. unfold _detect_humans_hog.
    rewrite outcome_bind. cbn [emit outcome snd].
    rewrite outcome_guarded. eauto. }
  assert (H2 : forall gray, exists detections,
             outcome (_detect_vehicles_contours cv image gray) = Return detections).
  { intros gray. unfold _detect_vehicles_contours.
    rewrite outcome_bind. cbn [emit outcome snd].
    rewrite outcome_guarded. eauto. }
  assert (H3 : forall gray hsv, exists detections,
             outcome (_detect_animals_texture cv image gray hsv)
             = Return detections).
  { intros gray hsv. unfold _detect_animals_texture.
    rewrite outcome_bind. cbn [emit outcome snd].
    rewrite outcome_guarded. eauto. }
  assert (H4 : forall gray, exists detections,
             outcome (_detect_machinery_edges cv image gray) = Return detections).
  { intros gray. unfold _detect_machinery_edges.
    rewrite outcome_bind. cbn [emit outcome snd].
    rewrite outcome_guarded. eauto. }
  split; [exact H1|]. split; [exact H2|]. split; [exact H3|].
  split; [exact H4|]. split.
  - intros Hz. unfold _detect_with_opencv_features.
    rewrite outcome_bind. cbn [emit outcome snd].
    rewrite outcome_bind. unfold cvtColor at 1. rewrite Hz.
    eexists. reflexivity.
  - intros Hnz gray hsv.
    destruct (H1 gray) as [people Hp]. destruct (H2 gray) as [cars Hc].
    destruct (H3 gray hsv) as [beasts Hb]. destruct (H4 gray) as [machines Hm].
    exists people, cars, beasts, machines.
    split; [exact Hp|]. split; [exact Hc|]. split; [exact Hb|].
    split; [exact Hm|].
    unfold _detect_with_opencv_features.
    rewrite outcome_bind. cbn [emit outcome snd].
    rewrite outcome_bind. unfold cvtColor at 1.
    destruct (pixel_count image) as [|n] eqn:En; [congruence|].
    cbn [lift outcome snd]. rewrite outcome_bind. unfold cvtColor. rewrite En.
    cbn [lift outcome snd]. fold gray hsv.
    rewrite outcome_bind, Hp, outcome_bind, Hc, outcome_bind, Hb,
      outcome_bind, Hm.
    reflexivity.
Qed.

Lemma heuristics_never_raise_witness :
  let frame := Fixture.solid 30 4 4 in
  let cv := Fixture.stub frame [] ([(1, 1, 2, 2)%Z], [[8 # 10]]) []
              (Some (repeat (0, 0, 150, 150)%Z 21)) in
  exists detections,
    outcome (_detect_with_opencv_features cv frame) = Return detections
    /\ map category detections = ["human"; "machinery"].
Proof.
  intros frame cv.
  destruct (heuristics_never_raise cv frame) as (_ & _ & _ & _ & _ & Hall).
  destruct Hall as (people & cars & beasts & machines
                    & Hp & Hc & Hb & Hm & Hrun);
    [vm_compute; discriminate|].
  eexists. split; [exact Hrun|].
  vm_compute in Hp, Hc, Hb, Hm.
  injection Hp as <-. injection Hc as <-. injection Hb as <-.
  injection Hm as <-. reflexivity.
Defined.

(** ** The animal heuristic *)

Lemma animal_step_spec (cv : CV2) (gray : Gray) (c : Contour) :
  rect_height (boundingRect cv c) <> 0%Z ->
  animal_step cv gray c =
  Return (if animal_like cv gray c then Some (animal_found cv gray c)
          else None).
Proof.
  unfold animal_step, animal_like, animal_found, rect_height.
  destruct (boundingRect cv c) as [[[x y] w] h]. intros Hh.
  destruct (Float.ltb 2000 (contourArea cv c)
            && Float.ltb (contourArea cv c) 50000); [|reflexivity].
  unfold py_truediv. rewrite (proj2 (Z.eqb_neq h 0) Hh). simpl obind.
  simpl andb.
  destruct (Float.ltb (5 # 10) (inject_Z w / inject_Z h)
            && Float.ltb (inject_Z w / inject_Z h) 3); [|reflexivity].
  simpl. now destruct (Float.gtb (np_var (crop gray x y w h)) 100).
Qed.

(** When contour extraction succeeds on the earth-tone mask (every
    bounding rectangle having a height), the animal heuristic returns, in
    order, one "animal" detection per contour of 2000 to 50000 pixels with
    aspect ratio between 0.5 and 3.0 and brightness variance above 100,
    with confidence min(0.6, variance/1000 + area/100000). *)
Theorem animal_heuristic_exact (cv : CV2) (image : Image) (gray : Gray)
    (hsv : HSVImage) (contours : list Contour) :
  findContours cv (inRange hsv (5, 50, 50)%Z (25, 255, 200)%Z)
  = Return contours ->
  Forall (fun c => rect_height (boundingRect cv c) <> 0%Z) contours ->
  _detect_animals_texture cv image gray hsv
  = ([Call "_detect_animals_texture"],
     Return (map (animal_found cv gray)
                 (List.filter (animal_like cv gray) contours)))
  /\ Forall (fun det =>
               class det = "animal" /\ category det = "animal"
               /\ exists c, In c contours /\ animal_like cv gray c = true
                    /\ bbox det = rect_list (boundingRect cv c)
                    /\ exists variance,
                         confidence det
                         = Float.min (6 # 10)
                             (variance / 1000 + contourArea cv c / 100000))
            (map (animal_found cv gray)
                 (List.filter (animal_like cv gray) contours)).
Proof.
  intros Hf Hh. split.
  - unfold _detect_animals_texture. cbv zeta. rewrite Hf.
    rewrite (loop_append_total _
               (fun c => if animal_like cv gray c
                         then Some (animal_found cv gray c) else None)).
    + simpl. now rewrite omap_filter.
    + eapply List.Forall_impl; [|exact Hh].
      intros c Hc. now apply animal_step_spec.
  - apply List.Forall_forall. intros det Hin.
    apply in_map_iff in Hin. destruct Hin as (c & <- & Hin).
    apply filter_In in Hin. destruct Hin as [Hin Hlike].
    unfold animal_found.
    destruct (boundingRect cv c) as [[[x y] w] h] eqn:Er.
    split; [reflexivity|]. split; [reflexivity|].
    exists c. split; [exact Hin|]. split; [exact Hlike|].
    rewrite Er. split; [reflexivity|]. eexists. reflexivity.
Qed.

Lemma animal_heuristic_exact_witness :
  let gray := [[0; 40; 0]; [40; 0; 40]; [0; 40; 0]]%Z in
  let outline := [(0, 0); (0, 59); (59, 59); (59, 0)]%Z in
  let cv :=
    {| imread := fun _ => None;
       bgr2gray := cv_bgr2gray;
       bgr2hsv := fun _ => (10, 100, 100)%Z;
       readNetFromDarknet := fun c w => Return (DarknetNet c w);
       getLayerNames := fun _ => [];
       getUnconnectedOutLayers := fun _ => [];
       forward := fun _ _ _ => Return [];
       detectMultiScale := fun _ => Return ([], []);
       Canny := fun g _ _ => Return g;
       findContours := fun _ => Return [outline];
       contourArea := Fixture.cv_contourArea;
       boundingRect := Fixture.cv_boundingRect;
       HoughLinesP := fun _ => Return None |} in
  exists det,
    outcome (_detect_animals_texture cv [] gray []) = Return [det]
    /\ category det = "animal" /\ bbox det = [0; 0; 60; 60]%Z.
Proof.
  intros gray outline cv.
  destruct (animal_heuristic_exact cv [] gray [] [outline]) as [Hrun _].
  - reflexivity.
  - repeat constructor. vm_compute. discriminate.
  - rewrite Hrun. vm_compute. eexists. split; [reflexivity|]. now split.
Defined.

(** ** What the merge keeps *)

Lemma category_present_false (detections : list Detection) (det : Detection) :
  category_present detections det = false
  <-> forall d, In d detections -> category d <> category det.
Proof.
  split.
  - intros H d Hin Hc.
    assert (category_present detections det = true)
      by (apply category_present_spec; now exists d).
    congruence.
  - intros H. destruct (category_present detections det) eqn:E;
      [|reflexivity].
    apply category_present_spec in E. destruct E as (d & Hin & Hc).
    now destruct (H d Hin).
Qed.

Lemma first_seen_facts (earlier heuristic : list Detection) :
  Forall (fun d => category_present earlier d = false /\ In d heuristic)
         (first_seen earlier heuristic)
  /\ List.NoDup (map category (first_seen earlier heuristic))
  /\ Forall (fun det =>
               category_present (earlier ++ first_seen earlier heuristic) det
               = true) heuristic.
Proof.
  revert earlier. induction heuristic as [|det rest IH]; intros earlier.
  - simpl. repeat split; constructor.
  - destruct (IH (earlier ++ [det])) as (Hnew & Hnodup & Hcover).
    assert (Htail : Forall (fun d => category_present earlier d = false
                                     /\ In d (det :: rest)
                                     /\ category d <> category det)
                           (first_seen (earlier ++ [det]) rest)).
    { eapply List.Forall_impl; [|exact Hnew].
      intros d [Hp Hin]. rewrite category_present_app in Hp.
      apply orb_false_iff in Hp. destruct Hp as [Hp1 Hp2].
      split; [exact Hp1|]. split; [now right|].
      rewrite category_present_false in Hp2. apply not_eq_sym, Hp2. now left. }
    simpl. destruct (category_present earlier det) eqn:Hp; simpl.
    + split; [|split].
      * eapply List.Forall_impl; [|exact Htail]. now intros d (H1 & H2 & _).
      * exact Hnodup.
      * constructor.
        -- rewrite category_present_app, Hp. reflexivity.
        -- eapply List.Forall_impl; [|exact Hcover].
           intros x Hx. rewrite <- app_assoc in Hx. simpl in Hx.
           now rewrite (category_present_redundant earlier _ det x Hp) in Hx.
    + split; [|split].
      * constructor; [split; [exact Hp | now left]|].
        eapply List.Forall_impl; [|exact Htail]. now intros d (H1 & H2 & _).
      * constructor; [|exact Hnodup].
        intros Hin. apply in_map_iff in Hin. destruct Hin as (d & Hc & Hin).
        rewrite List.Forall_forall in Htail.
        destruct (Htail d Hin) as (_ & _ & Hne). now apply Hne.
      * constructor.
        -- rewrite category_present_app. apply orb_true_iff. right.
           simpl. now rewrite String.eqb_refl.
        -- eapply List.Forall_impl; [|exact Hcover].
           intros x Hx. now rewrite <- app_assoc in Hx.
Qed.

(** The merge never drops or reorders what it starts from; what it adds
    are heuristic detections of pairwise different categories, none of
    them a category of the detections it started from; and every category
    found by a heuristic is represented in the result. *)
Theorem merge_detections_categories (detections heuristic : list Detection) :
  exists added,
    merge_detections detections heuristic = detections ++ added
    /\ (forall d, In d added ->
          In d heuristic
          /\ forall p, In p detections -> category p <> category d)
    /\ List.NoDup (map category added)
    /\ (forall c, In c (map category (detections ++ added))
                  <-> In c (map category detections)
                      \/ In c (map category heuristic)).
Proof.
  exists (first_seen detections heuristic).
  destruct (first_seen_facts detections heuristic) as (Hnew & Hnodup & Hcover).
  rewrite List.Forall_forall in Hnew, Hcover.
  split; [apply merge_detections_first_seen|]. split; [|split].
  - intros d Hin. destruct (Hnew d Hin) as [Hp Hh]. split; [exact Hh|].
    now apply category_present_false.
  - exact Hnodup.
  - intros c. rewrite map_app, in_app_iff. split.
    + intros [H|H]; [now left|]. right.
      apply in_map_iff in H. destruct H as (d & <- & Hin).
      apply in_map. now apply (Hnew d).
    + intros [H|H]; [now left|].
      apply in_map_iff in H. destruct H as (det & <- & Hin).
      pose proof (Hcover det Hin) as Hp.
      apply category_present_spec in Hp. destruct Hp as (d & Hd & <-).
      rewrite <- in_app_iff, <- map_app. now apply in_map.
Qed.

(** ** The record built by [analyze_image] *)

Lemma body_inversion (cv : CV2) (self : Detector) (path : string)
    (r : AnalysisResult) :
  outcome (analyze_image_body cv self path) = Return r ->
  exists image primary,
    imread cv path = Some image
    /\ outcome (_analyze_day_night cv image) = Return (isDay r)
    /\ outcome (primary_stage cv self image) = Return primary
    /\ (((length primary < 2)%nat
         /\ (exists heuristic,
               outcome (_detect_with_opencv_features cv image)
               = Return heuristic
               /\ details r = merge_detections primary heuristic))
        \/ ((2 <= length primary)%nat /\ details r = primary))
    /\ summary r
       = ("It's " ++ (if isDay r then "day" else "night")
          ++ " time. The photo includes: " ++ join ", " (objects r))%string.
Proof.
  unfold analyze_image_body. intros H.
  apply outcome_bind_Return in H. destruct H as (image & Hread & H).
  apply outcome_bind_Return in H. destruct H as (is_day & Hday & H).
  apply outcome_bind_Return in H. destruct H as (primary & Hprim & H).
  apply outcome_bind_Return in H. destruct H as (detections & Hdet & H).
  cbv zeta in H. injection H as <-. cbn [isDay details summary objects].
  exists image, primary.
  destruct (imread cv path) as [image'|]; [|discriminate Hread].
  injection Hread as ->.
  split; [reflexivity|]. split; [exact Hday|]. split; [exact Hprim|].
  split; [|reflexivity].
  destruct (Nat.ltb_spec (length primary) 2) as [Hlt|Hge].
  - left. split; [exact Hlt|].
    apply outcome_bind_Return in Hdet. destruct Hdet as (ov & Hov & Hdet).
    injection Hdet as <-. now exists ov.
  - right. split; [exact Hge|]. now injection Hdet as <-.
Qed.

(** Whatever happens, the result names the path it was asked about and at
    least one category. Either it is the degraded record of an exception
    the pipeline raised, or the image was read, [isDay] is the verdict of
    the day/night classifier on it and the summary reads "It's day time."
    or "It's night time." followed by the categories, comma-separated. *)
Theorem analyze_image_record (cv : CV2) (self : Detector) (path : string)
    (r : AnalysisResult) :
  outcome (analyze_image cv self path) = Return r ->
  photoPath r = path
  /\ objects r <> []
  /\ ((exists e, outcome (analyze_image_body cv self path) = Raise e
                 /\ r = degraded_result path e)
      \/ exists image,
           imread cv path = Some image
           /\ outcome (_analyze_day_night cv image) = Return (isDay r)
           /\ summary r
              = ("It's " ++ (if isDay r then "day" else "night")
                 ++ " time. The photo includes: "
                 ++ join ", " (objects r))%string).
Proof.
  rewrite outcome_analyze_image.
  destruct (outcome (analyze_image_body cv self path)) as [r'|e] eqn:Hbody;
    intros [= <-].
  - destruct (body_categories _ _ _ _ Hbody) as [Hpath Hobj].
    split; [exact Hpath|]. split.
    + rewrite Hobj. now destruct (category_list (details r')).
    + right. destruct (body_inversion _ _ _ _ Hbody)
        as (image & primary & Hread & Hday & _ & _ & Hsum).
      now exists image.
  - split; [reflexivity|]. split; [discriminate|]. left. now exists e.
Qed.

Lemma analyze_image_record_witness :
  let cv := Fixture.stub (Fixture.solid 10 2 2) [] ([(1, 1, 2, 2)%Z], [[8 # 10]])
              [] None in
  exists r,
    outcome (analyze_image cv Fixture.bare "frame.jpg") = Return r
    /\ photoPath r = "frame.jpg"
    /\ summary r = "It's night time. The photo includes: human".
Proof.
  intros cv.
  assert (Hrun : exists r,
             outcome (analyze_image cv Fixture.bare "frame.jpg") = Return r
             /\ summary r = "It's night time. The photo includes: human")
    by (vm_compute; eexists; split; reflexivity).
  destruct Hrun as (r & Hrun & Hsum). exists r.
  destruct (analyze_image_record cv Fixture.bare "frame.jpg" r Hrun)
    as (Hpath & _).
  now repeat split.
Defined.

Lemma short_list_categories (primary : list Detection) :
  (length primary < 2)%nat -> List.NoDup (map category primary).
Proof.
  destruct primary as [|d [|d' l]]; simpl; intros H; try lia.
  - constructor.
  - constructor; [intros [] | constructor].
Qed.

Lemma category_list_length (detections : list Detection) :
  List.NoDup (map category detections) ->
  length (category_list detections) = length detections.
Proof.
  intros H. unfold category_list.
  change (length (elements ?X)) with (size X).
  rewrite size_list_to_set by now apply NoDup_ListNoDup.
  apply length_map.
Qed.

(** When the primary stage yields fewer than two detections, so that the
    heuristic detectors are consulted, no two detections of the result
    have the same category, and the result lists exactly one category per
    detection. *)
Theorem fallback_one_detection_per_category (cv : CV2) (self : Detector)
    (path : string) (image : Image) (primary : list Detection)
    (r : AnalysisResult) :
  outcome (analyze_image_body cv self path) = Return r ->
  imread cv path = Some image ->
  outcome (primary_stage cv self image) = Return primary ->
  (length primary < 2)%nat ->
  List.NoDup (map category (details r))
  /\ (details r <> [] -> length (objects r) = length (details r)).
Proof.
  intros Hbody Hread Hprim Hlt.
  destruct (body_inversion _ _ _ _ Hbody)
    as (image' & primary' & Hread' & _ & Hprim' & Hcases & _).
  assert (image' = image) by congruence. subst image'.
  assert (primary' = primary) by congruence. subst primary'.
  destruct Hcases as [(_ & heuristic & _ & Hd)|[Hge _]]; [|lia].
  destruct (first_seen_facts primary heuristic) as (Hnew & Hnodup & _).
  rewrite List.Forall_forall in Hnew.
  assert (Hdistinct : List.NoDup (map category (details r))).
  { rewrite Hd, merge_detections_first_seen, map_app.
    apply NoDup_ListNoDup, NoDup_app.
    split; [apply NoDup_ListNoDup, short_list_categories, Hlt|].
    split; [|now apply NoDup_ListNoDup].
    intros c Hc Hc'. apply list_elem_of_In in Hc, Hc'.
    apply in_map_iff in Hc, Hc'.
    destruct Hc as (p & <- & Hp). destruct Hc' as (d & Hcd & Hdin).
    destruct (Hnew d Hdin) as [Hfresh _].
    rewrite category_present_false in Hfresh. now apply (Hfresh p Hp). }
  split; [exact Hdistinct|]. intros Hne.
  destruct (body_categories _ _ _ _ Hbody) as [_ Hobj].
  rewrite Hobj. rewrite <- (category_list_length _ Hdistinct).
  destruct (category_list (details r)) eqn:E; [|reflexivity].
  apply category_list_nil in E. contradiction.
Qed.

Lemma fallback_one_detection_per_category_witness :
  let people := ([(1, 1, 2, 2); (5, 5, 2, 2)]%Z, [[8 # 10]; [9 # 10]]) in
  let cv := Fixture.stub (Fixture.solid 200 4 4) [] people [] None in
  exists r,
    outcome (analyze_image_body cv Fixture.bare "frame.jpg") = Return r
    /\ length (details r) = 1%nat /\ objects r = ["human"].
Proof.
  intros people cv.
  assert (Hrun : exists r,
             outcome (analyze_image_body cv Fixture.bare "frame.jpg") = Return r
             /\ objects r = ["human"])
    by (vm_compute; eexists; split; reflexivity).
  destruct Hrun as (r & Hrun & Hobj). exists r. split; [exact Hrun|].
  destruct (fallback_one_detection_per_category cv Fixture.bare "frame.jpg"
              (Fixture.solid 200 4 4) [] r Hrun eq_refl eq_refl)
    as [_ Hlen]; [simpl; lia|].
  split; [|exact Hobj].
  rewrite <- Hlen; [now rewrite Hobj|].
  vm_compute in Hrun. injection Hrun as <-. discriminate.
Defined.

(** ** More on the category lookup *)

Lemma ascii_lower_idem (c : ascii) : ascii_lower (ascii_lower c) = ascii_lower c.
Proof. destruct c as [[] [] [] [] [] [] [] []]; reflexivity. Qed.

Lemma lower_idem (s : string) : lower (lower s) = lower s.
Proof.
  induction s as [|c s IH]; simpl; [reflexivity|].
  now rewrite ascii_lower_idem, IH.
Qed.

Lemma categorize_object_cases (class_name : string) :
  In (_categorize_object class_name)
     ["human"; "animal"; "machinery"; "vehicle"]
  \/ (_categorize_object class_name = lower class_name
      /\ str_in (lower class_name) humans = false
      /\ str_in (lower class_name) animals = false
      /\ str_in (lower class_name) machinery = false
      /\ str_in (lower class_name) vehicles = false).
Proof.
  unfold _categorize_object.
  destruct (str_in (lower class_name) humans); [left; simpl; tauto|].
  destruct (str_in (lower class_name) animals); [left; simpl; tauto|].
  destruct (str_in (lower class_name) machinery); [left; simpl; tauto|].
  destruct (str_in (lower class_name) vehicles); [left; simpl; tauto|].
  right. tauto.
Qed.

(** The lookup ignores the case of the class name, its answer is in lower
    case, and looking up a category gives the category back. *)
Theorem categorize_object_stable (class_name : string) :
  _categorize_object (lower class_name) = _categorize_object class_name
  /\ lower (_categorize_object class_name) = _categorize_object class_name
  /\ _categorize_object (_categorize_object class_name)
     = _categorize_object class_name.
Proof.
  assert (H1 : forall c, _categorize_object (lower c) = _categorize_object c).
  { intros c. unfold _categorize_object. now rewrite lower_idem. }
  split; [apply H1|].
  destruct (categorize_object_cases class_name)
    as [Hin|(Hc & Hh & Ha & Hm & Hv)].
  - simpl in Hin.
    destruct Hin as [<-|[<-|[<-|[<-|[]]]]]; split; reflexivity.
  - rewrite Hc. split; [apply lower_idem|].
    rewrite H1. exact Hc.
Qed.

(** ** The classes of a new detector *)

(** When constructing the detector prints a warning, the detector holds
    neither a network nor any class name. In particular a class file that
    cannot be read discards a network that was loaded. Without a warning
    the class names are the stripped lines of the class file when it
    exists, and the 80 COCO names otherwise. *)
Theorem detector_classes (cv : CV2) (fs : FileSystem) :
  exists d,
    outcome (new_detector cv fs) = Return d
    /\ (trace (new_detector cv fs) <> [] -> net d = None /\ classes d = [])
    /\ (forall e, path_exists fs classes_file = true ->
                  readlines fs classes_file = Raise e ->
                  trace (new_detector cv fs) <> [] /\ net d = None)
    /\ (trace (new_detector cv fs) = [] ->
        path_exists fs classes_file = false ->
        classes d = coco_classes /\ length (classes d) = 80%nat)
    /\ (trace (new_detector cv fs) = [] ->
        path_exists fs classes_file = true ->
        exists lines, readlines fs classes_file = Return lines
                      /\ classes d = map strip lines).
Proof.
  unfold new_detector, _initialize_detector, initialize_body.
  destruct (model_paths fs) as [weights config].
  unfold ibind, ilift, iret, set_net, set_output_layers, set_classes.
  cbn [net classes output_layers confidence_threshold nms_threshold].
  repeat match goal with
         | |- context [path_exists ?f ?p] =>
             destruct (path_exists f p) eqn:?; cbn [andb]
         | |- context [readNetFromDarknet ?b ?c ?w] =>
             destruct (readNetFromDarknet b c w) eqn:?
         | |- context [map_outcome ?f ?l] => destruct (map_outcome f l)
         | |- context [readlines ?f ?p] => destruct (readlines f p) eqn:?
         end.
  all: eexists; (split; [reflexivity|]); cbn.
  all: repeat split; auto; try congruence; try discriminate; eauto.
Qed.

Lemma detector_classes_witness :
  let cv := Fixture.stub [] [] ([], []) [] None in
  let fs := Fixture.files [tiny_weights; tiny_config; classes_file] in
  exists d,
    outcome (new_detector cv fs) = Return d
    /\ classes d = ["person"; "TV"].
Proof.
  intros cv fs.
  destruct (detector_classes cv fs) as (d & Hrun & _ & _ & _ & Hfile).
  exists d. split; [exact Hrun|].
  destruct Hfile as (lines & Hlines & ->); [reflexivity | reflexivity |].
  cbn in Hlines. injection Hlines as <-. reflexivity.
Defined.

(** ** The detections of the primary detector *)

(** Without a network the primary detector finds nothing. Every detection
    it makes is named after a known class, or "unknown" when the class
    index is beyond the class list; its category is the lookup of that
    name and its box has four coordinates. *)
Theorem yolo_detections_named (cv : CV2) (self : Detector) (image : Image)
    (detections : list Detection) :
  outcome (_detect_with_yolo cv self image) = Return detections ->
  (net self = None -> detections = [])
  /\ Forall (fun det =>
               (In (class det) (classes self) \/ class det = "unknown")
               /\ category det = _categorize_object (class det)
               /\ length (bbox det) = 4%nat) detections.
Proof.
  intros H.
  destruct (yolo_inversion cv self image detections H)
    as [[Hnet ->]|(n & outputs & boxes & confs & ids & Hnet & _ & _ & ->)].
  - split; [reflexivity | constructor].
  - split; [congruence|].
    apply List.Forall_forall. intros det Hin.
    apply in_map_iff in Hin. destruct Hin as (i & <- & _).
    unfold yolo_detection. cbn [class category bbox].
    split; [|split; [reflexivity|]].
    + destruct (Nat.ltb_spec (nth i ids 0%nat) (length (classes self)));
        [left; now apply nth_In | now right].
    + now destruct (nth i boxes (0, 0, 0, 0)%Z) as [[[x y] w] h].
Qed.

Lemma yolo_detections_named_witness :
  let frame := Fixture.solid 200 40 40 in
  let outputs :=
    [[Fixture.anchor (1 # 2) (1 # 2) (1 # 5) (1 # 5) [0; 0; 9 # 10]%Q]] in
  let cv := Fixture.stub frame outputs ([], []) [] None in
  let empty_names :=
    {| net := Some (DarknetNet tiny_config tiny_weights); classes := [];
       output_layers := []; confidence_threshold := 5 # 10;
       nms_threshold := 4 # 10 |} in
  exists det,
    outcome (_detect_with_yolo cv empty_names frame) = Return [det]
    /\ class det = "unknown" /\ category det = "unknown".
Proof.
  intros frame outputs cv empty_names.
  assert (Hrun : exists det,
             outcome (_detect_with_yolo cv empty_names frame) = Return [det])
    by (vm_compute; eexists; reflexivity).
  destruct Hrun as [det Hrun]. exists det. split; [exact Hrun|].
  destruct (yolo_detections_named cv empty_names frame [det] Hrun) as [_ Hall].
  inversion Hall as [|? ? ([[]|Hc] & Hcat & _) _]; subst.
  split; [exact Hc|]. now rewrite Hcat, Hc.
Defined.

(** ** The indices kept by the suppression *)

Section SortOrder.
Context {A : Type} (score : A -> Q).

Lemma insert_desc_In (a x : A) (l : list A) :
  In x (insert_desc score a l) <-> x = a \/ In x l.
Proof.
  induction l as [|b l IH]; simpl.
  - split; intros [H|[]]; left; congruence.
  - destruct (Float.gtb (score b) (score a)); simpl.
    + rewrite IH. split; intros [H|[H|H]]; auto.
    + split; intros [H|H]; auto; left; congruence.
Qed.

Lemma insert_desc_NoDup (a : A) (l : list A) :
  ~ In a l -> List.NoDup l -> List.NoDup (insert_desc score a l).
Proof.
  intros Ha Hl. induction Hl as [|b l Hb Hl IH]; simpl.
  - constructor; [intros [] | constructor].
  - destruct (Float.gtb (score b) (score a)).
    + constructor.
      * rewrite insert_desc_In. intros [->|Hin]; [|contradiction].
        apply Ha. now left.
      * apply IH. intros Hin. apply Ha. now right.
    + constructor; [exact Ha|]. now constructor.
Qed.

Lemma sort_desc_In (x : A) (l : list A) : In x (sort_desc score l) <-> In x l.
Proof.
  induction l as [|a l IH]; simpl; [reflexivity|].
  rewrite insert_desc_In, IH. split; intros [H|H]; auto.
Qed.

Lemma sort_desc_NoDup (l : list A) :
  List.NoDup l -> List.NoDup (sort_desc score l).
Proof.
  induction 1 as [|a l Ha Hl IH]; simpl; [constructor|].
  apply insert_desc_NoDup; [|exact IH]. now rewrite sort_desc_In.
Qed.

Lemma descending_nth (d : A) (l : list A) (i j : nat) :
  descending score l -> (i < j)%nat -> (j < length l)%nat ->
  (score (nth j l d) <= score (nth i l d))%Q.
Proof.
  revert i j. induction l as [|b rest IH]; intros i j Hd Hij Hj;
    [simpl in Hj; lia|].
  destruct Hd as [Hb Hrest]. destruct j as [|j]; [lia|].
  simpl in Hj. destruct i as [|i]; simpl.
  - rewrite List.Forall_forall in Hb. apply gtb_le, Hb, nth_In. lia.
  - apply IH; [assumption | lia | lia].
Qed.

End SortOrder.

Section GreedyOrder.
Context {A : Type} (score : A -> Q) (box : A -> Rect).
Variable (overlap : Rect -> Rect -> Q).
Variables (score_threshold nms_threshold : Q).

Lemma greedy_In (l : list A) (x : A) :
  In x (greedy box overlap nms_threshold l) -> In x l.
Proof.
  assert (H : Forall (fun y => In y l) (greedy box overlap nms_threshold l)).
  { apply greedy_Forall. apply List.Forall_forall. auto. }
  rewrite List.Forall_forall in H. apply H.
Qed.

Lemma greedy_NoDup (l : list A) :
  List.NoDup l -> List.NoDup (greedy box overlap nms_threshold l).
Proof.
  funelim (greedy box overlap nms_threshold l); intros Hnd; simp greedy;
    try constructor.
  - inversion Hnd as [|? ? Hb Hrest]; subst. intros Hin.
    apply greedy_In, filter_In in Hin. now destruct Hin.
  - apply H. apply List.NoDup_filter. now inversion Hnd.
Qed.

Lemma suppress_NoDup (l : list A) :
  List.NoDup l ->
  List.NoDup (suppress score box overlap score_threshold nms_threshold l).
Proof.
  intros H. unfold suppress.
  now apply greedy_NoDup, sort_desc_NoDup, List.NoDup_filter.
Qed.

End GreedyOrder.

Lemma NoDup_map_on {A B} (f : A -> B) (l : list A) :
  (forall x y, In x l -> In y l -> f x = f y -> x = y) ->
  List.NoDup l -> List.NoDup (map f l).
Proof.
  intros Hinj Hl. induction Hl as [|a l Ha Hl IH]; simpl; constructor.
  - intros Hin. apply in_map_iff in Hin. destruct Hin as (y & Hy & Hin).
    assert (y = a) by (apply Hinj; [now right | now left | exact Hy]).
    now subst y.
  - apply IH. intros x y Hx Hy. apply Hinj; now right.
Qed.

(** The indices [NMSBoxes] returns are distinct positions of the lists it
    was given, so that looking them up never fails; their scores exceed
    the score threshold and come in descending order. *)
Theorem nms_indices_valid (bboxes : list Rect) (scores : list Q) (st nt : Q) :
  let kept := NMSBoxes bboxes scores st nt in
  List.NoDup kept
  /\ Forall (fun i => (i < length bboxes)%nat /\ (i < length scores)%nat
                      /\ (st < nth i scores 0)%Q) kept
  /\ (length kept <= length bboxes)%nat
  /\ (forall a b, (a < b)%nat -> (b < length kept)%nat ->
        (nth (nth b kept 0%nat) scores 0 <= nth (nth a kept 0%nat) scores 0)%Q).
Proof.
  intros kept.
  destruct (nms_kept bboxes scores st nt) as (Hk & _ & Hs & Hset).
  set (score := fun c : nat * (Rect * Q) => snd (snd c)) in *.
  set (box := fun c : nat * (Rect * Q) => fst (snd c)) in *.
  set (L := combine bboxes scores) in *.
  set (out := suppress score box iou st nt (enumerate L)) in *.
  assert (Hlook : Forall (fun p => nth_error L (fst p) = Some (snd p)) out)
    by apply suppress_Forall, enumerate_lookup.
  rewrite List.Forall_forall in Hlook.
  assert (Hnd : List.NoDup kept).
  { unfold kept. rewrite Hk. apply NoDup_map_on.
    - intros [i x] [j y] Hx Hy Hij. simpl in Hij. subst j. f_equal.
      pose proof (Hlook _ Hx) as H1. pose proof (Hlook _ Hy) as H2.
      simpl in H1, H2. congruence.
    - apply suppress_NoDup. apply (NoDup_map_inv fst).
      destruct (map_snd_combine_seq L 0) as [_ Hfst].
      unfold enumerate. rewrite Hfst. apply seq_NoDup. }
  assert (Hrange : Forall (fun i => (i < length bboxes)%nat
                                    /\ (i < length scores)%nat
                                    /\ (st < nth i scores 0)%Q) kept).
  { pose proof (nms_scores_above bboxes scores st nt) as Habove.
    fold kept in Habove. rewrite List.Forall_forall in Habove.
    apply List.Forall_forall. intros i Hi.
    split; [|split; [|now apply Habove]].
    - unfold kept in Hi. rewrite Hk in Hi. apply in_map_iff in Hi.
      destruct Hi as ([j [b s]] & <- & Hin).
      pose proof (Hlook _ Hin) as H. simpl in H.
      apply nth_error_combine in H. destruct H as [H _].
      simpl. apply nth_error_Some. congruence.
    - unfold kept in Hi. rewrite Hk in Hi. apply in_map_iff in Hi.
      destruct Hi as ([j [b s]] & <- & Hin).
      pose proof (Hlook _ Hin) as H. simpl in H.
      apply nth_error_combine in H. destruct H as [_ H].
      simpl. apply nth_error_Some. congruence. }
  split; [exact Hnd|]. split; [exact Hrange|]. split.
  - replace (length bboxes) with (length (seq 0 (length bboxes)))
      by apply List.length_seq.
    apply List.NoDup_incl_length; [exact Hnd|].
    intros i Hi. rewrite List.Forall_forall in Hrange.
    apply in_seq. destruct (Hrange i Hi). lia.
  - intros a b Hab Hb.
    assert (Hlen : length kept = length out)
      by (unfold kept; now rewrite Hk, length_map).
    assert (Hnth : forall k, (k < length out)%nat ->
              nth (nth k kept 0%nat) scores 0%Q
              = score (nth k out (0%nat, ((0, 0, 0, 0)%Z, 0%Q)))).
    { intros k Hk'. rewrite <- (map_nth score), <- Hs, <- Hk. fold kept.
      rewrite (nth_indep (map (fun i => nth i scores 0%Q) kept)
                 _ (nth 0%nat scores 0%Q)) by (rewrite length_map; lia).
      now rewrite (map_nth (fun i => nth i scores 0%Q) kept 0%nat). }
    rewrite !Hnth by lia.
    destruct Hset as (_ & Hd & _).
    apply (descending_nth score _ out a b Hd Hab). lia.
Qed.

Lemma nms_indices_valid_witness :
  let bboxes := [(0, 0, 10, 10); (1, 1, 10, 10); (50, 50, 5, 5)]%Z in
  let scores := [6 # 10; 9 # 10; 7 # 10] in
  NMSBoxes bboxes scores (5 # 10) (4 # 10) = [1; 2]%nat
  /\ (nth 2 scores 0 <= nth 1 scores 0)%Q.
Proof.
  intros bboxes scores.
  destruct (nms_indices_valid bboxes scores (5 # 10) (4 # 10))
    as (_ & _ & _ & Horder).
  split; [vm_compute; reflexivity|].
  apply (Horder 0%nat 1%nat); [lia | vm_compute; lia].
Defined.

(** ** The human heuristic without window weights *)

Lemma enumerate_map_snd {A B} (f : A -> B) (l : list A) :
  map (fun ir : nat * A => f (snd ir)) (enumerate l) = map f l.
Proof.
  rewrite <- (map_map snd f). unfold enumerate.
  now destruct (map_snd_combine_seq l 0) as [-> _].
Qed.

(** When the window matcher reports no weights, every window counts as a
    person with the default confidence 0.6; when the matcher fails, the
    detector reports the error on stderr and finds nobody. *)
Theorem hog_without_weights (cv : CV2) (image : Image) (gray : Gray) :
  (forall rects,
      detectMultiScale cv gray = Return (rects, []) ->
      _detect_humans_hog cv image gray
      = ([Call "_detect_humans_hog"],
         Return (map (fun r => {| class := "person"; confidence := 6 # 10;
                                  category := "human"; bbox := rect_list r |})
                     rects)))
  /\ (forall e,
        detectMultiScale cv gray = Raise e ->
        _detect_humans_hog cv image gray
        = ([Call "_detect_humans_hog";
            Stderr ("HOG detection error: " ++ str e)], Return [])).
Proof.
  split.
  - intros rects H. unfold _detect_humans_hog. rewrite H.
    rewrite (loop_append_total _
               (fun ir : nat * Rect =>
                  Some {| class := "person"; confidence := 6 # 10;
                          category := "human"; bbox := rect_list (snd ir) |})).
    + simpl. f_equal. f_equal.
      rewrite <- (enumerate_map_snd
                    (fun r => {| class := "person"; confidence := 6 # 10;
                                 category := "human"; bbox := rect_list r |})).
      generalize (enumerate rects). intros l.
      induction l as [|x l IH]; [reflexivity|]. cbn. now rewrite <- IH.
    + apply List.Forall_forall. intros [i r] _. reflexivity.
  - intros e H. unfold _detect_humans_hog. now rewrite H.
Qed.

Lemma hog_without_weights_witness :
  let cv := Fixture.stub [] [] ([(1, 1, 2, 2); (5, 5, 2, 2)]%Z, []) [] None in
  exists a b,
    outcome (_detect_humans_hog cv [] []) = Return [a; b]
    /\ confidence a = 6 # 10 /\ confidence b = 6 # 10.
Proof.
  intros cv.
  destruct (hog_without_weights cv [] []) as [H _].
  rewrite (H [(1, 1, 2, 2); (5, 5, 2, 2)]%Z eq_refl).
  do 2 eexists. split; [reflexivity|]. now split.
Defined.

(** ** The command line *)









(** * The webhook receiver: saving an image *)

Lemma replace_char_length (old new : ascii) (s : string) :
  String.length (replace_char old new s) = String.length s.
Proof. induction s as [|c s IH]; simpl; [reflexivity | now rewrite IH]. Qed.

Lemma replace_char_get (old new : ascii) (s : string) (i : nat) :
  String.get i (replace_char old new s)
  = option_map (fun c => if Ascii.eqb c old then new else c) (String.get i s).
Proof.
  revert i. induction s as [|c s IH]; intros i; simpl; [reflexivity|].
  destruct i as [|i]; [reflexivity | apply IH].
Qed.

(** The file name of a saved image is the timestamp, with each colon
    turned into a hyphen and each space into an underscore and nothing
    else changed, followed by an underscore, the object type as it came
    and ".jpg". The object type is not cleaned: a type with a space in it
    gives a file name with a space in it. *)
Theorem image_filename_shape (object_type timestamp : string) :
  let safe_timestamp :=
    replace_char " " "_" (replace_char ":" "-" timestamp) in
  image_filename object_type timestamp
  = (safe_timestamp ++ "_" ++ object_type ++ ".jpg")%string
  /\ String.length safe_timestamp = String.length timestamp
  /\ (forall i c, String.get i safe_timestamp = Some c ->
                  c <> ":"%char /\ c <> " "%char)
  /\ (forall i c, String.get i timestamp = Some c ->
        String.get i safe_timestamp
        = Some (if Ascii.eqb c ":" then "-"%char
                else if Ascii.eqb c " " then "_"%char else c)).
Proof.
  intros safe_timestamp. unfold safe_timestamp.
  split; [reflexivity|]. split; [now rewrite !replace_char_length|].
  assert (Hget : forall i c, String.get i timestamp = Some c ->
            String.get i (replace_char " " "_" (replace_char ":" "-" timestamp))
            = Some (if Ascii.eqb c ":" then "-"%char
                    else if Ascii.eqb c " " then "_"%char else c)).
  { intros i c H. rewrite !replace_char_get, H. simpl.
    destruct (Ascii.eqb c ":"); reflexivity. }
  split; [|exact Hget].
  intros i c H. rewrite !replace_char_get in H.
  destruct (String.get i timestamp) as [c0|]; [|discriminate].
  simpl in H. injection H as <-.
  destruct (Ascii.eqb_spec c0 ":") as [->|Hc].
  - split; discriminate.
  - destruct (Ascii.eqb_spec c0 " ") as [->|Hs]; [split; discriminate|].
    now split.
Qed.

Lemma image_filename_shape_witness :
  image_filename "traffic light" "2024-05-01 12:30:00"
  = "2024-05-01_12-30-00_traffic light.jpg"
  /\ String.get 10 (replace_char " " "_"
                      (replace_char ":" "-" "2024-05-01 12:30:00"))
     = Some "_"%char.
Proof.
  destruct (image_filename_shape "traffic light" "2024-05-01 12:30:00")
    as (Hname & _ & _ & Hget).
  split; [rewrite Hname; reflexivity|].
  apply (Hget 10%nat " "%char). reflexivity.
Defined.



(** * The day/night verdict and the layout of the image *)

Lemma sumZ_Permutation (l1 l2 : list Z) :
  Permutation l1 l2 -> sumZ l1 = sumZ l2.
Proof.
  induction 1 as [|x l l' _ IH|x y l|l l' l'' _ IH1 _ IH2]; simpl;
    [reflexivity | now rewrite IH | lia | congruence].
Qed.

Lemma filter_length_Permutation {A} (f : A -> bool) (l1 l2 : list A) :
  Permutation l1 l2 ->
  length (List.filter f l1) = length (List.filter f l2).
Proof.
  induction 1 as [|x l l' _ IH|x y l|l l' l'' _ IH1 _ IH2]; simpl.
  - reflexivity.
  - destruct (f x); simpl; now rewrite IH.
  - destruct (f x), (f y); reflexivity.
  - congruence.
Qed.

(** The verdict depends on the brightness values only, not on where they
    are in the image: two gray images with the same values, in any
    arrangement and of any shape, get the same verdict. *)
Theorem day_night_layout_independent (gray1 gray2 : Gray) :
  Permutation (concat gray1) (concat gray2) ->
  is_day_of_gray gray1 = is_day_of_gray gray2.
Proof.
  intros Hp.
  assert (Hmean : np_mean gray1 = np_mean gray2).
  { unfold np_mean, pixel_count.
    now rewrite (sumZ_Permutation _ _ Hp), (Permutation_length Hp). }
  assert (Hhist : calcHist gray1 = calcHist gray2).
  { unfold calcHist. apply map_ext. intros b.
    now rewrite (filter_length_Permutation _ _ _ Hp). }
  unfold is_day_of_gray. now rewrite Hmean, Hhist.
Qed.

Lemma day_night_layout_independent_witness :
  is_day_of_gray [[10; 200]; [200; 90]]%Z
  = is_day_of_gray [[200; 90; 200; 10]]%Z.
Proof.
  apply day_night_layout_independent. simpl.
  apply perm_trans with [200; 10; 200; 90]%Z; [apply perm_swap|].
  apply perm_skip. apply (Permutation_rev [10; 200; 90]%Z).
Defined.
